(** * Payload framing and dispatch of the binary codec (src/binary/payload.ts)

    A shallow embedding of the payload envelope and of the four variant
    codecs (transaction, milestone, indexation, receipt), with the theorems
    that relate the embedding to the written specification.

    Layout of the development:
    - bytes and little-endian fixed-width integers;
    - the errors raised by the codec and their classification;
    - the read and write cursors and their monads;
    - the interface of the collaborating sub-codecs;
    - the payload codec itself, function by function;
    - the notions the properties are stated with: wire layout, validity,
      the contract assumed of the sub-codecs, a reference instance of them
      and concrete values;
    - the lemmas on the cursors, on the recursion of the decoder, on what is
      written and read back;
    - the claims of the specification, each with its instance on concrete
      values. *)

From Stdlib Require Import ZArith List Bool Lia.
From Stdlib.Strings Require Import String Ascii Byte.
Import ListNotations.

Local Open Scope Z_scope.
Local Open Scope list_scope.

(** ** Bytes *)

(** A [Uint8Array] cell stores its value modulo 256. *)
Definition byte_of_Z (z : Z) : byte :=
  match Byte.of_N (Z.to_N (z mod 256)) with
  | Some b => b
  | None => x00
  end.

Definition Z_of_byte (b : byte) : Z := Z.of_N (Byte.to_N b).

(** Length of a byte sequence as an integer of the host language. *)
Definition len {A : Type} (l : list A) : Z := Z.of_nat (List.length l).

(** Little-endian layout of an [n]-byte unsigned integer; the value wraps
    modulo [256 ^ n], as successive stores into a byte array do. *)
Fixpoint le_bytes (n : nat) (z : Z) : list byte :=
  match n with
  | O => []
  | S k => byte_of_Z z :: le_bytes k (z / 256)
  end.

Fixpoint le_value (bs : list byte) : Z :=
  match bs with
  | [] => 0
  | b :: rest => Z_of_byte b + 256 * le_value rest
  end.

(** Modelled from the spec: the sizes exported by [./common], which is not
    among the sources; their values are those of the wire layout constants
    (section 6): 4-byte type tag and length field, 2-byte string length
    prefix, 32-byte message id. *)
Definition BYTE_SIZE : Z := 1.
Definition UINT16_SIZE : Z := 2.
Definition UINT32_SIZE : Z := 4.
Definition UINT64_SIZE : Z := 8.
Definition TYPE_LENGTH : Z := UINT32_SIZE.
Definition STRING_LENGTH : Z := UINT16_SIZE.
Definition MESSAGE_ID_LENGTH : Z := 32.

(** Modelled from the spec: the sizes exported by the Ed25519 module
    (section 6: public key 32 bytes, signature 64 bytes). *)
Module Ed25519.
Definition PUBLIC_KEY_SIZE : Z := 32.
Definition SIGNATURE_SIZE : Z := 64.
End Ed25519.

(** The global payload type tags.  [RECEIPT_PAYLOAD_TYPE] is declared in
    [typings/models/IReceiptPayload.d.ts]; the other three are modelled from
    the spec (section 3: Transaction = 0, Milestone = 1, Indexation = 2). *)
Definition TRANSACTION_PAYLOAD_TYPE : Z := 0.
Definition MILESTONE_PAYLOAD_TYPE : Z := 1.
Definition INDEXATION_PAYLOAD_TYPE : Z := 2.
Definition RECEIPT_PAYLOAD_TYPE : Z := 3.

(** [Number(b)] for a non-negative [bigint] [b]: the nearest double, ties to
    even.  Every integer below [2 ^ 53] is its own image. *)
Definition Number_of_BigInt (z : Z) : Z :=
  let k := Z.log2 z in
  if k <? 53 then z
  else
    let sh := k - 52 in
    let q := Z.shiftr z sh in
    let r := z mod 2 ^ sh in
    let half := 2 ^ (sh - 1) in
    let q' := if (half <? r) || ((r =? half) && Z.odd q) then q + 1 else q in
    Z.shiftl q' sh.

(** ** Strings *)

(** A string of the host language is a sequence of UTF-16 code units and its
    [length] counts them, while the stream writes a string as its UTF-8
    bytes (spec, sections 3 and 6).  A string is held here as those bytes.
    [utf16_length] is the [length] of the host string they encode: a UTF-8
    sequence of one, two or three bytes encodes one code unit, a sequence of
    four bytes encodes a surrogate pair, and the count is made at the first
    byte of each sequence.  For an ASCII string it is the count of bytes.
    A string with an unpaired surrogate has no UTF-8 form and is not
    modelled. *)
Definition code_units (c : ascii) : Z :=
  let b := Z.of_N (N_of_ascii c) in
  if b <? 128 then 1          (* a sequence of one byte *)
  else if b <? 192 then 0     (* a continuation byte *)
  else if b <? 240 then 1     (* first of two or three bytes *)
  else 2.                     (* first of four bytes *)

Fixpoint utf16_length (s : string) : Z :=
  match s with
  | EmptyString => 0
  | String c rest => code_units c + utf16_length rest
  end.

(** ** Errors *)

(** The decoder that raised a size or tag error. *)
Inductive Codec := CPayload | CTransaction | CMilestone | CIndexation | CReceipt.

(** One constructor per [throw] of the source, carrying the values the
    message interpolates; [StreamExceeds] and [FixedLengthMismatch] are the
    failures of the cursors, [Collaborator] those of the sub-codecs.
    [OutOfFuel] belongs to the unrolling of the recursion only: the result
    of [deserializePayload] does not depend on the fuel
    ([deserializePayload_unfold], [deserializePayload_fuel_independent]). *)
Inductive Error :=
| DataTooShort (who : Codec) (length min : Z)
| PayloadLengthExceeds (payloadLength unused : Z)
| UnrecognizedPayloadType (payloadType : Z)
| UnrecognizedTransactionType (type : Z)
| TypeMismatch (who : Codec) (type : Z)
| UnrecognizedEssenceType (type : Z)
| EmbeddedNotReceipt
| IndexKeyBelowMinimum (length min : Z)
| IndexKeyExceedsMaximum (length max : Z)
| StreamExceeds (name : string) (length unused : Z)
| FixedLengthMismatch (name : string) (length given : Z)
| Collaborator (message : string)
| OutOfFuel.

(** The error taxonomy of the specification. *)
Inductive ErrorKind :=
| TruncatedInput
| TypeTagMismatch
| UnknownPayloadType
| InvalidNestedPayloadKind
| IndexLengthOutOfRange
| UnrecognizedEssence
| OtherError.

Definition error_kind (e : Error) : ErrorKind :=
  match e with
  | DataTooShort _ _ _ => TruncatedInput
  | PayloadLengthExceeds _ _ => TruncatedInput
  | StreamExceeds _ _ _ => TruncatedInput
  | UnrecognizedPayloadType _ => UnknownPayloadType
  | UnrecognizedTransactionType _ => UnknownPayloadType
  | TypeMismatch _ _ => TypeTagMismatch
  | UnrecognizedEssenceType _ => UnrecognizedEssence
  | EmbeddedNotReceipt => InvalidNestedPayloadKind
  | IndexKeyBelowMinimum _ _ => IndexLengthOutOfRange
  | IndexKeyExceedsMaximum _ _ => IndexLengthOutOfRange
  | FixedLengthMismatch _ _ _ => OtherError
  | Collaborator _ => OtherError
  | OutOfFuel => OtherError
  end.

Inductive result (A : Type) : Type :=
| Ok (a : A)
| Err (e : Error).
Arguments Ok {A} a.
Arguments Err {A} e.

Definition is_ok {A : Type} (r : result A) : bool :=
  match r with Ok _ => true | Err _ => false end.

(** ** The read cursor *)

(** Modelled from the spec: the reader of [../utils/readStream], which is
    not among the sources (section 6, byte cursor contract: [remaining],
    [hasRemaining], fixed-width reads tagged with a field name, fixed-length
    byte reads, length-prefixed strings; every read advances the position and
    fails with a truncated-input error when too few bytes remain).  Its
    storage is fixed at construction, so a read is a function of the storage
    and of the read index and returns the new index; an exception leaves the
    index where it was.  Integers are little-endian, as the protocol has
    them. *)
Definition Reader (A : Type) : Type := list byte -> Z -> result A * Z.

Module ReadStream.

(** [return a] and [throw e] in the middle of a sequence of reads. *)
Definition ret {A : Type} (a : A) : Reader A := fun _ i => (Ok a, i).

Definition throw {A : Type} (e : Error) : Reader A := fun _ i => (Err e, i).

(** Sequencing: the second read starts where the first stopped; an
    exception ends the sequence. *)
Definition bind {A B : Type} (m : Reader A) (k : A -> Reader B) : Reader B :=
  fun s i =>
    match m s i with
    | (Ok a, j) => k a s j
    | (Err e, j) => (Err e, j)
    end.

(** Modelled from the spec: [length()], the size of the storage. *)
Definition length : Reader Z := fun s i => (Ok (len s), i).

(** Modelled from the spec: [hasRemaining(n)], whether [n] more bytes can be
    read. *)
Definition hasRemaining (remaining : Z) : Reader bool :=
  fun s i => (Ok (i + remaining <=? len s), i).

(** Modelled from the spec: [unused()], the count of bytes not read yet. *)
Definition unused : Reader Z := fun s i => (Ok (len s - i), i).

(** The bytes under the cursor. *)
Definition slice (s : list byte) (i n : Z) : list byte :=
  firstn (Z.to_nat n) (skipn (Z.to_nat i) s).

(** Modelled from the spec: [readFixedHex(name, length)], a read of [length]
    bytes, returned in the programming interface as their hex string. *)
Definition readFixedHex (name : string) (length : Z) : Reader (list byte) :=
  fun s i =>
    if i + length <=? len s
    then (Ok (slice s i length), i + length)
    else (Err (StreamExceeds name length (len s - i)), i).

(** Modelled from the spec: the fixed-width unsigned reads
    [readByte], [readUInt16], [readUInt32], [readUInt64] with their argument
    [moveIndex]; [moveIndex = false] peeks. *)
Definition readUInt (width : Z) (name : string) (moveIndex : bool) : Reader Z :=
  fun s i =>
    if i + width <=? len s
    then (Ok (le_value (slice s i width)), if moveIndex then i + width else i)
    else (Err (StreamExceeds name width (len s - i)), i).

Definition readByte := readUInt BYTE_SIZE.
Definition readUInt16 := readUInt UINT16_SIZE.
Definition readUInt32 := readUInt UINT32_SIZE.
Definition readUInt64 := readUInt UINT64_SIZE.

(** Modelled from the spec: [readString(name)], a 2-byte length and that
    many bytes. *)
Definition readString (name : string) : Reader string :=
  bind (readUInt16 name true) (fun stringLength =>
  bind (readFixedHex name stringLength) (fun bytes =>
  ret (string_of_list_byte bytes))).

End ReadStream.

Declare Scope reader_scope.
Delimit Scope reader_scope with reader.
Notation "x <- m ;; k" := (ReadStream.bind m (fun x => k))
  (at level 61, m at next level, right associativity) : reader_scope.
Notation "m ;;; k" := (ReadStream.bind m (fun _ => k))
  (at level 61, right associativity) : reader_scope.

(** ** The write cursor *)

(** Modelled from the spec: the writer of [../utils/writeStream], which is
    not among the sources (section 6 and the design note on backward length
    patching): a growable byte buffer and a separate write cursor that can
    be repositioned without truncating; a write at the cursor overwrites in
    place what is already there and appends beyond the end.  A failed write
    leaves the writer as it was when the exception was raised. *)
Record WriteStream : Type := mkWriteStream {
  storage : list byte;
  writeIndex : Z
}.

Definition Writer (A : Type) : Type := WriteStream -> result A * WriteStream.

Module WriteStream.

Definition empty : WriteStream := mkWriteStream [] 0.

Definition ret {A : Type} (a : A) : Writer A := fun ws => (Ok a, ws).

Definition throw {A : Type} (e : Error) : Writer A := fun ws => (Err e, ws).

Definition bind {A B : Type} (m : Writer A) (k : A -> Writer B) : Writer B :=
  fun ws =>
    match m ws with
    | (Ok a, ws') => k a ws'
    | (Err e, ws') => (Err e, ws')
    end.

(** Modelled from the spec: [getWriteIndex()] and [setWriteIndex(i)], the
    current position and the repositioning of the cursor. *)
Definition getWriteIndex : Writer Z := fun ws => (Ok (writeIndex ws), ws).

Definition setWriteIndex (writeIndex : Z) : Writer unit :=
  fun ws => (Ok tt, mkWriteStream (storage ws) writeIndex).

(** Overwrite [bs] into [s] at offset [i]; cells between the end of [s]
    and [i] read as zero. *)
Definition overwrite (s : list byte) (i : Z) (bs : list byte) : list byte :=
  firstn (Z.to_nat i) s ++ repeat x00 (Z.to_nat i - List.length s)
  ++ bs ++ skipn (Z.to_nat i + List.length bs) s.

(** The write of a byte sequence at the cursor, which then moves past it. *)
Definition writeBytes (bs : list byte) : Writer unit :=
  fun ws =>
    (Ok tt, mkWriteStream (overwrite (storage ws) (writeIndex ws) bs)
                          (writeIndex ws + len bs)).

(** Modelled from the spec: the fixed-width unsigned writes [writeByte],
    [writeUInt16], [writeUInt32], [writeUInt64], mirrors of the reads. *)
Definition writeUInt (width : nat) (name : string) (val : Z) : Writer unit :=
  writeBytes (le_bytes width val).

Definition writeByte := writeUInt 1.
Definition writeUInt16 := writeUInt 2.
Definition writeUInt32 := writeUInt 4.
Definition writeUInt64 := writeUInt 8.

(** Modelled from the spec: [writeFixedHex(name, length, val)], the mirror
    of [readFixedHex].  The spec leaves open what a value of another size
    than [length] does; here it is refused. *)
Definition writeFixedHex (name : string) (length : Z) (val : list byte) : Writer unit :=
  if length =? len val
  then writeBytes val
  else throw (FixedLengthMismatch name length (len val)).

(** Modelled from the spec: [writeString(name, val)], a 2-byte length and
    the bytes of the string. *)
Definition writeString (name : string) (val : string) : Writer unit :=
  bind (writeUInt16 name (Z.of_nat (String.length val))) (fun _ =>
  writeBytes (list_byte_of_string val)).

(** Modelled from the spec: [finalBytes()], what was written. *)
Definition finalBytes (ws : WriteStream) : list byte := storage ws.

End WriteStream.

Declare Scope writer_scope.
Delimit Scope writer_scope with writer.
Notation "x <- m ;; k" := (WriteStream.bind m (fun x => k))
  (at level 61, m at next level, right associativity) : writer_scope.
Notation "m ;;; k" := (WriteStream.bind m (fun _ => k))
  (at level 61, right associativity) : writer_scope.

(** ** Collaborating sub-codecs *)

(** The transaction-essence, unlock-block and migrated-funds codecs, the
    constants their modules export and the size of a merkle proof are
    imported by [payload.ts] and are opaque to it. *)
Class Collaborators : Type := {
  TransactionEssence : Type;
  UnlockBlocks : Type;
  MigratedFunds : Type;
  TRANSACTION_ESSENCE_TYPE : Z;
  MERKLE_PROOF_LENGTH : Z;
  MIN_MIGRATED_FUNDS_LENGTH : Z;
  serializeTransactionEssence : TransactionEssence -> Writer unit;
  deserializeTransactionEssence : Reader TransactionEssence;
  serializeUnlockBlocks : UnlockBlocks -> Writer unit;
  deserializeUnlockBlocks : Reader UnlockBlocks;
  serializeFunds : MigratedFunds -> Writer unit;
  deserializeFunds : Reader MigratedFunds
}.

(** ** The payload codec *)

Section PayloadCodec.

Context {X : Collaborators}.

(** A payload object.  The [type] field of the four interfaces is fixed by
    the interface, so it is a function of the constructor; [UntypedPayload]
    stands for an object whose [type] is none of the four tags.  The hex
    strings of the programming interface are kept as the bytes they denote
    and the [index] of an indexation payload as its UTF-8 bytes (its
    [length] is [utf16_length]); [data] of an indexation payload is
    optional. *)
#[warnings="-register-all"]
Inductive Payload : Type :=
| TransactionPayload (essence : TransactionEssence) (unlockBlocks : UnlockBlocks)
| MilestonePayload (index timestamp : Z)
    (parent1MessageId parent2MessageId inclusionMerkleProof : list byte)
    (publicKeys : list (list byte)) (receipt : option Payload)
    (signatures : list (list byte))
| IndexationPayload (index : string) (data : option (list byte))
| ReceiptPayload (migratedAt : Z) (funds : MigratedFunds)
| UntypedPayload (type : Z).

Definition payload_type (object : Payload) : Z :=
  match object with
  | TransactionPayload _ _ => TRANSACTION_PAYLOAD_TYPE
  | MilestonePayload _ _ _ _ _ _ _ _ => MILESTONE_PAYLOAD_TYPE
  | IndexationPayload _ _ => INDEXATION_PAYLOAD_TYPE
  | ReceiptPayload _ _ => RECEIPT_PAYLOAD_TYPE
  | UntypedPayload type => type
  end.

Definition MIN_PAYLOAD_LENGTH : Z := TYPE_LENGTH.

Definition MIN_MILESTONE_PAYLOAD_LENGTH : Z :=
  MIN_PAYLOAD_LENGTH + UINT32_SIZE + UINT64_SIZE + MESSAGE_ID_LENGTH
  + MESSAGE_ID_LENGTH + MERKLE_PROOF_LENGTH + BYTE_SIZE
  + Ed25519.PUBLIC_KEY_SIZE + BYTE_SIZE + Ed25519.SIGNATURE_SIZE.

Definition MIN_INDEXATION_PAYLOAD_LENGTH : Z :=
  MIN_PAYLOAD_LENGTH + STRING_LENGTH + 1 + STRING_LENGTH.

Definition MIN_TRANSACTION_PAYLOAD_LENGTH : Z :=
  MIN_PAYLOAD_LENGTH + UINT32_SIZE.

Definition MIN_RECEIPT_PAYLOAD_LENGTH : Z :=
  MIN_PAYLOAD_LENGTH + UINT32_SIZE + UINT16_SIZE + MIN_MIGRATED_FUNDS_LENGTH.

Definition MIN_INDEXATION_KEY_LENGTH : Z := 1.

Definition MAX_INDEXATION_KEY_LENGTH : Z := 64.

(** *** Decoding *)

Section Decode.

Import ReadStream.
Local Open Scope reader_scope.

(** [for (let i = 0; i < count; i++) list.push(readFixedHex(name, size))] *)
Fixpoint readFixedHexList (name : string) (size : Z) (count : nat)
  : Reader (list (list byte)) :=
  match count with
  | O => ret []
  | S count' =>
      item <- readFixedHex name size ;;
      rest <- readFixedHexList name size count' ;;
      ret (item :: rest)
  end.

Definition deserializeTransactionPayload : Reader Payload :=
  enough <- hasRemaining MIN_TRANSACTION_PAYLOAD_LENGTH ;;
  if negb enough then
    length <- ReadStream.length ;;
    throw (DataTooShort CTransaction length MIN_TRANSACTION_PAYLOAD_LENGTH)
  else
    type <- readUInt32 "payloadTransaction.type" true ;;
    if negb (type =? TRANSACTION_PAYLOAD_TYPE) then
      throw (TypeMismatch CTransaction type)
    else
      essenceType <- readByte "payloadTransaction.essenceType" false ;;
      if essenceType =? TRANSACTION_ESSENCE_TYPE then
        essence <- deserializeTransactionEssence ;;
        unlockBlocks <- deserializeUnlockBlocks ;;
        ret (TransactionPayload essence unlockBlocks)
      else
        throw (UnrecognizedEssenceType type).

(** The embedded payload is read by the envelope decoder, passed here as
    [deserializePayload]. *)
Definition deserializeMilestonePayload
  (deserializePayload : Reader (option Payload)) : Reader Payload :=
  enough <- hasRemaining MIN_MILESTONE_PAYLOAD_LENGTH ;;
  if negb enough then
    length <- ReadStream.length ;;
    throw (DataTooShort CMilestone length MIN_MILESTONE_PAYLOAD_LENGTH)
  else
    type <- readUInt32 "payloadMilestone.type" true ;;
    if negb (type =? MILESTONE_PAYLOAD_TYPE) then
      throw (TypeMismatch CMilestone type)
    else
      index <- readUInt32 "payloadMilestone.index" true ;;
      timestamp <- readUInt64 "payloadMilestone.timestamp" true ;;
      parent1MessageId <-
        readFixedHex "payloadMilestone.parent1MessageId" MESSAGE_ID_LENGTH ;;
      parent2MessageId <-
        readFixedHex "payloadMilestone.parent2MessageId" MESSAGE_ID_LENGTH ;;
      inclusionMerkleProof <-
        readFixedHex "payloadMilestone.inclusionMerkleProof" MERKLE_PROOF_LENGTH ;;
      publicKeysCount <- readByte "payloadMilestone.publicKeysCount" true ;;
      publicKeys <-
        readFixedHexList "payloadMilestone.publicKey" Ed25519.PUBLIC_KEY_SIZE
          (Z.to_nat publicKeysCount) ;;
      receipt <- deserializePayload ;;
      if match receipt with
         | Some r => negb (payload_type r =? RECEIPT_PAYLOAD_TYPE)
         | None => false
         end
      then throw EmbeddedNotReceipt
      else
        signaturesCount <- readByte "payloadMilestone.signaturesCount" true ;;
        signatures <-
          readFixedHexList "payloadMilestone.signature" Ed25519.SIGNATURE_SIZE
            (Z.to_nat signaturesCount) ;;
        ret (MilestonePayload index (Number_of_BigInt timestamp)
               parent1MessageId parent2MessageId inclusionMerkleProof
               publicKeys receipt signatures).

Definition deserializeIndexationPayload : Reader Payload :=
  enough <- hasRemaining MIN_INDEXATION_PAYLOAD_LENGTH ;;
  if negb enough then
    length <- ReadStream.length ;;
    throw (DataTooShort CIndexation length MIN_INDEXATION_PAYLOAD_LENGTH)
  else
    type <- readUInt32 "payloadIndexation.type" true ;;
    if negb (type =? INDEXATION_PAYLOAD_TYPE) then
      throw (TypeMismatch CIndexation type)
    else
      index <- readString "payloadIndexation.index" ;;
      dataLength <- readUInt32 "payloadIndexation.dataLength" true ;;
      data <- readFixedHex "payloadIndexation.data" dataLength ;;
      ret (IndexationPayload index (Some data)).

Definition deserializeReceiptPayload : Reader Payload :=
  enough <- hasRemaining MIN_RECEIPT_PAYLOAD_LENGTH ;;
  if negb enough then
    length <- ReadStream.length ;;
    throw (DataTooShort CReceipt length MIN_RECEIPT_PAYLOAD_LENGTH)
  else
    type <- readUInt32 "payloadReceipt.type" true ;;
    if negb (type =? RECEIPT_PAYLOAD_TYPE) then
      throw (TypeMismatch CReceipt type)
    else
      migratedAt <- readUInt32 "payloadReceipt.migratedAt" true ;;
      funds <- deserializeFunds ;;
      ret (ReceiptPayload migratedAt funds).

(** The body of [deserializePayload]; [self] is the function itself, reached
    again through the milestone decoder. *)
Definition deserializePayloadBody (self : Reader (option Payload))
  : Reader (option Payload) :=
  enough <- hasRemaining MIN_PAYLOAD_LENGTH ;;
  if negb enough then
    length <- ReadStream.length ;;
    throw (DataTooShort CPayload length MIN_PAYLOAD_LENGTH)
  else
    payloadLength <- readUInt32 "payload.length" true ;;
    enough <- hasRemaining payloadLength ;;
    if negb enough then
      unused <- unused ;;
      throw (PayloadLengthExceeds payloadLength unused)
    else if 0 <? payloadLength then
      payloadType <- readUInt32 "payload.type" false ;;
      if payloadType =? TRANSACTION_PAYLOAD_TYPE then
        payload <- deserializeTransactionPayload ;; ret (Some payload)
      else if payloadType =? MILESTONE_PAYLOAD_TYPE then
        payload <- deserializeMilestonePayload self ;; ret (Some payload)
      else if payloadType =? INDEXATION_PAYLOAD_TYPE then
        payload <- deserializeIndexationPayload ;; ret (Some payload)
      else if payloadType =? RECEIPT_PAYLOAD_TYPE then
        payload <- deserializeReceiptPayload ;; ret (Some payload)
      else
        throw (UnrecognizedPayloadType payloadType)
    else
      ret None.

(** The recursion is unrolled [fuel] times. *)
Fixpoint deserializePayloadFuel (fuel : nat) : Reader (option Payload) :=
  match fuel with
  | O => throw OutOfFuel
  | S fuel' => deserializePayloadBody (deserializePayloadFuel fuel')
  end.

(** Every nested envelope starts after the length field of the enclosing
    one, so the size of the storage bounds the depth of the recursion (see
    [deserializePayload_unfold]). *)
Definition deserializePayload : Reader (option Payload) :=
  fun s i => deserializePayloadFuel (S (List.length s)) s i.

End Decode.

(** *** Encoding *)

Section Encode.

Import WriteStream.
Local Open Scope writer_scope.

(** [for (let i = 0; i < list.length; i++) writeFixedHex(name, size, list[i])] *)
Fixpoint writeFixedHexList (name : string) (size : Z) (items : list (list byte))
  : Writer unit :=
  match items with
  | [] => ret tt
  | item :: rest =>
      writeFixedHex name size item ;;; writeFixedHexList name size rest
  end.

Definition serializeTransactionPayload (type : Z) (essence : TransactionEssence)
  (unlockBlocks : UnlockBlocks) : Writer unit :=
  writeUInt32 "payloadMilestone.type" type ;;;
  if type =? TRANSACTION_PAYLOAD_TYPE then
    serializeTransactionEssence essence ;;;
    serializeUnlockBlocks unlockBlocks
  else
    throw (UnrecognizedTransactionType type).

(** The embedded payload is written by the envelope encoder, passed here as
    [serializePayload]. *)
Definition serializeMilestonePayload
  (serializePayload : option Payload -> Writer unit)
  (type index timestamp : Z)
  (parent1MessageId parent2MessageId inclusionMerkleProof : list byte)
  (publicKeys : list (list byte)) (receipt : option Payload)
  (signatures : list (list byte)) : Writer unit :=
  writeUInt32 "payloadMilestone.type" type ;;;
  writeUInt32 "payloadMilestone.index" index ;;;
  writeUInt64 "payloadMilestone.timestamp" timestamp ;;;
  writeFixedHex "payloadMilestone.parent1MessageId" MESSAGE_ID_LENGTH
    parent1MessageId ;;;
  writeFixedHex "payloadMilestone.parent2MessageId" MESSAGE_ID_LENGTH
    parent2MessageId ;;;
  writeFixedHex "payloadMilestone.inclusionMerkleProof" MERKLE_PROOF_LENGTH
    inclusionMerkleProof ;;;
  writeByte "payloadMilestone.publicKeysCount" (len publicKeys) ;;;
  writeFixedHexList "payloadMilestone.publicKey" Ed25519.PUBLIC_KEY_SIZE
    publicKeys ;;;
  serializePayload receipt ;;;
  writeByte "payloadMilestone.signaturesCount" (len signatures) ;;;
  writeFixedHexList "payloadMilestone.signature" Ed25519.SIGNATURE_SIZE
    signatures.

(** [object.index.length] is the length of the host string, in UTF-16 code
    units, not the count of bytes [writeString] then writes.  [object.data]
    is falsy when absent and when it is the empty string. *)
Definition serializeIndexationPayload (type : Z) (index : string)
  (data : option (list byte)) : Writer unit :=
  if utf16_length index <? MIN_INDEXATION_KEY_LENGTH then
    throw (IndexKeyBelowMinimum (utf16_length index)
             MIN_INDEXATION_KEY_LENGTH)
  else if MAX_INDEXATION_KEY_LENGTH <? utf16_length index then
    throw (IndexKeyExceedsMaximum (utf16_length index)
             MAX_INDEXATION_KEY_LENGTH)
  else
    writeUInt32 "payloadIndexation.type" type ;;;
    writeString "payloadIndexation.index" index ;;;
    match data with
    | Some ((_ :: _) as bytes) =>
        writeUInt32 "payloadIndexation.dataLength" (len bytes) ;;;
        writeFixedHex "payloadIndexation.data" (len bytes) bytes
    | _ =>
        writeUInt32 "payloadIndexation.dataLength" 0
    end.

Definition serializeReceiptPayload (type migratedAt : Z) (funds : MigratedFunds)
  : Writer unit :=
  writeUInt32 "payloadReceipt.type" type ;;;
  writeUInt32 "payloadReceipt.migratedAt" migratedAt ;;;
  serializeFunds funds.

(** The envelope of [serializePayload]: the placeholder, the variant chosen
    by [variant], the back-patch of the length. *)
Definition serializePayloadBody (variant : Payload -> Writer unit)
  (object : option Payload) : Writer unit :=
  payloadLengthWriteIndex <- getWriteIndex ;;
  writeUInt32 "payload.length" 0 ;;;
  match object with
  | None => ret tt
  | Some object => variant object
  end ;;;
  endOfPayloadWriteIndex <- getWriteIndex ;;
  setWriteIndex payloadLengthWriteIndex ;;;
  writeUInt32 "payload.length"
    (endOfPayloadWriteIndex - payloadLengthWriteIndex - UINT32_SIZE) ;;;
  setWriteIndex endOfPayloadWriteIndex.

(** The dispatch of [serializePayload] on [object.type]. *)
Fixpoint serializeVariant (object : Payload) : Writer unit :=
  match object with
  | TransactionPayload essence unlockBlocks =>
      serializeTransactionPayload (payload_type object) essence unlockBlocks
  | MilestonePayload index timestamp parent1MessageId parent2MessageId
      inclusionMerkleProof publicKeys receipt signatures =>
      serializeMilestonePayload (serializePayloadBody serializeVariant)
        (payload_type object) index timestamp parent1MessageId
        parent2MessageId inclusionMerkleProof publicKeys receipt signatures
  | IndexationPayload index data =>
      serializeIndexationPayload (payload_type object) index data
  | ReceiptPayload migratedAt funds =>
      serializeReceiptPayload (payload_type object) migratedAt funds
  | UntypedPayload type =>
      throw (UnrecognizedTransactionType type)
  end.

Definition serializePayload (object : option Payload) : Writer unit :=
  serializePayloadBody serializeVariant object.

End Encode.

End PayloadCodec.

(** * Notions used to state the properties *)

(** ** Byte sequences, writer states and kinds of reads *)

(** [bytes_at s i bs]: the storage [s] holds [bs] from offset [i] on. *)
Definition bytes_at (s : list byte) (i : Z) (bs : list byte) : Prop :=
  exists pre suf, s = pre ++ bs ++ suf /\ len pre = i.

(** The cursor of a writer lies inside its buffer. *)
Definition wf_ws (ws : WriteStream) : Prop :=
  0 <= writeIndex ws <= len (storage ws).

(** [frames ws ws']: from [ws] to [ws'] the cursor did not move backwards
    and nothing before the cursor of [ws] changed. *)
Definition frames (ws ws' : WriteStream) : Prop :=
  wf_ws ws' /\ writeIndex ws <= writeIndex ws'
  /\ firstn (Z.to_nat (writeIndex ws)) (storage ws')
     = firstn (Z.to_nat (writeIndex ws)) (storage ws).

(** A writer that frames every well-formed state it starts from. *)
Definition framing {A : Type} (m : Writer A) : Prop :=
  forall ws, wf_ws ws -> frames ws (snd (m ws)).

(** [writes m bs]: from a well-formed state, [m] succeeds and its effect is
    to lay [bs] down at the cursor. *)
Definition writes (m : Writer unit) (bs : list byte) : Prop :=
  forall ws, wf_ws ws -> m ws = WriteStream.writeBytes bs ws.

(** A read is local when it depends only on the size of the storage and on
    the bytes from the cursor on, and forward when it never moves the cursor
    backwards. *)
Definition local_read {A : Type} (m : Reader A) : Prop :=
  forall s1 s2 i,
    0 <= i -> len s1 = len s2 ->
    skipn (Z.to_nat i) s1 = skipn (Z.to_nat i) s2 ->
    m s1 i = m s2 i.

Definition forward_read {A : Type} (m : Reader A) : Prop :=
  forall s i a j, 0 <= i -> m s i = (Ok a, j) -> i <= j.

Definition tame {A : Type} (m : Reader A) : Prop :=
  local_read m /\ forward_read m.

(** ** What is assumed of the collaborators *)

(** The contract of one sub-codec: a valid value is written as its byte
    layout at the cursor and is read back from that layout; a write, failed
    or not, only touches the buffer from the cursor on; a read depends only
    on the bytes from the cursor on and never moves the cursor backwards. *)
Record CodecLaws {A : Type} (serialize : A -> Writer unit)
  (deserialize : Reader A) (valid : A -> bool) (bytes : A -> list byte)
  : Prop := {
  serialize_valid : forall a ws,
    valid a = true -> wf_ws ws ->
    serialize a ws = WriteStream.writeBytes (bytes a) ws;
  serialize_frames : forall a ws,
    wf_ws ws -> frames ws (snd (serialize a ws));
  deserialize_valid : forall a s i,
    valid a = true -> bytes_at s i (bytes a) ->
    deserialize s i = (Ok a, i + len (bytes a));
  deserialize_local : forall s1 s2 i,
    0 <= i -> len s1 = len s2 ->
    skipn (Z.to_nat i) s1 = skipn (Z.to_nat i) s2 ->
    deserialize s1 i = deserialize s2 i;
  deserialize_forward : forall s i a j,
    0 <= i -> deserialize s i = (Ok a, j) -> i <= j
}.

(** The byte layout each sub-codec gives its values, and the values it
    accepts. *)
Class CollaboratorLayout (X : Collaborators) : Type := {
  valid_essence : TransactionEssence -> bool;
  essence_bytes : TransactionEssence -> list byte;
  valid_unlockBlocks : UnlockBlocks -> bool;
  unlockBlocks_bytes : UnlockBlocks -> list byte;
  valid_funds : MigratedFunds -> bool;
  funds_bytes : MigratedFunds -> list byte
}.

(** The three sub-codecs meet their contract, the essence codec writes its
    own type byte first, and a merkle proof has a size. *)
Class CollaboratorLaws (X : Collaborators) (Y : CollaboratorLayout X) : Prop := {
  essence_laws :
    CodecLaws serializeTransactionEssence deserializeTransactionEssence
      valid_essence essence_bytes;
  unlockBlocks_laws :
    CodecLaws serializeUnlockBlocks deserializeUnlockBlocks
      valid_unlockBlocks unlockBlocks_bytes;
  funds_laws :
    CodecLaws serializeFunds deserializeFunds valid_funds funds_bytes;
  essence_type_range : 0 <= TRANSACTION_ESSENCE_TYPE < 256;
  essence_type_first : forall e,
    valid_essence e = true ->
    exists rest, essence_bytes e = byte_of_Z TRANSACTION_ESSENCE_TYPE :: rest;
  merkle_proof_length_nonneg : 0 <= MERKLE_PROOF_LENGTH
}.

(** ** The decoder and the encoder in parts *)

Section DecoderParts.

Context {X : Collaborators}.
Import ReadStream.
Local Open Scope reader_scope.

(** The fields of a milestone that precede the embedded payload. *)
Definition MilestoneHead : Type :=
  (Z * Z * list byte * list byte * list byte * list (list byte))%type.

(** The reads of [deserializeMilestonePayload] up to the embedded payload. *)
Definition milestone_head : Reader MilestoneHead :=
  enough <- hasRemaining MIN_MILESTONE_PAYLOAD_LENGTH ;;
  if negb enough then
    length <- ReadStream.length ;;
    throw (DataTooShort CMilestone length MIN_MILESTONE_PAYLOAD_LENGTH)
  else
    type <- readUInt32 "payloadMilestone.type" true ;;
    if negb (type =? MILESTONE_PAYLOAD_TYPE) then
      throw (TypeMismatch CMilestone type)
    else
      index <- readUInt32 "payloadMilestone.index" true ;;
      timestamp <- readUInt64 "payloadMilestone.timestamp" true ;;
      parent1MessageId <-
        readFixedHex "payloadMilestone.parent1MessageId" MESSAGE_ID_LENGTH ;;
      parent2MessageId <-
        readFixedHex "payloadMilestone.parent2MessageId" MESSAGE_ID_LENGTH ;;
      inclusionMerkleProof <-
        readFixedHex "payloadMilestone.inclusionMerkleProof" MERKLE_PROOF_LENGTH ;;
      publicKeysCount <- readByte "payloadMilestone.publicKeysCount" true ;;
      publicKeys <-
        readFixedHexList "payloadMilestone.publicKey" Ed25519.PUBLIC_KEY_SIZE
          (Z.to_nat publicKeysCount) ;;
      ret (index, timestamp, parent1MessageId, parent2MessageId,
           inclusionMerkleProof, publicKeys).

(** The rest of [deserializeMilestonePayload], from the check of the
    embedded payload on. *)
Definition milestone_tail (h : MilestoneHead) (receipt : option Payload)
  : Reader Payload :=
  let '(index, timestamp, parent1MessageId, parent2MessageId,
        inclusionMerkleProof, publicKeys) := h in
  if match receipt with
     | Some r => negb (payload_type r =? RECEIPT_PAYLOAD_TYPE)
     | None => false
     end
  then throw EmbeddedNotReceipt
  else
    signaturesCount <- readByte "payloadMilestone.signaturesCount" true ;;
    signatures <-
      readFixedHexList "payloadMilestone.signature" Ed25519.SIGNATURE_SIZE
        (Z.to_nat signaturesCount) ;;
    ret (MilestonePayload index (Number_of_BigInt timestamp)
           parent1MessageId parent2MessageId inclusionMerkleProof
           publicKeys receipt signatures).

(** The dispatch of [deserializePayload] on the peeked type tag. *)
Definition dispatch (self : Reader (option Payload)) (payloadType : Z)
  : Reader (option Payload) :=
  if payloadType =? TRANSACTION_PAYLOAD_TYPE then
    payload <- deserializeTransactionPayload ;; ret (Some payload)
  else if payloadType =? MILESTONE_PAYLOAD_TYPE then
    payload <- deserializeMilestonePayload self ;; ret (Some payload)
  else if payloadType =? INDEXATION_PAYLOAD_TYPE then
    payload <- deserializeIndexationPayload ;; ret (Some payload)
  else if payloadType =? RECEIPT_PAYLOAD_TYPE then
    payload <- deserializeReceiptPayload ;; ret (Some payload)
  else
    throw (UnrecognizedPayloadType payloadType).

(** The payload objects a decoder can return: those of the four kinds. *)
Definition is_typed (p : Payload) : bool :=
  match p with
  | UntypedPayload _ => false
  | _ => true
  end.

(** Decode through the envelope from a fresh reader over [bytes]. *)
Definition decodePayload (bytes : list byte) : result (option Payload) :=
  fst (deserializePayload bytes 0).

(** The error the envelope decoder raises on the first [k] bytes of an
    envelope whose body has [body] bytes. *)
Definition truncation_error (body k : Z) : Error :=
  if k <? 4 then DataTooShort CPayload k MIN_PAYLOAD_LENGTH
  else PayloadLengthExceeds body (k - 4).

End DecoderParts.

Section EncoderParts.

Context {X : Collaborators}.
Import WriteStream.

(** The state after the placeholder. *)
Definition after_placeholder (ws : WriteStream) : WriteStream :=
  snd (writeUInt32 "payload.length" 0 ws).

(** The writer run inside the envelope. *)
Definition envelope_body (variant : Payload -> Writer unit)
  (object : option Payload) : Writer unit :=
  match object with
  | None => ret tt
  | Some object => variant object
  end.

(** The back-patch applied to the state [ws2] the body left, for an envelope
    begun at [start]. *)
Definition back_patch (start : Z) (ws2 : WriteStream) : WriteStream :=
  mkWriteStream
    (overwrite (storage ws2) start
       (le_bytes 4 (writeIndex ws2 - start - UINT32_SIZE)))
    (writeIndex ws2).

(** Encode through the envelope into a fresh writer and take its bytes. *)
Definition encodePayload (object : option Payload) : result (list byte) :=
  match serializePayload object WriteStream.empty with
  | (Ok _, ws) => Ok (WriteStream.finalBytes ws)
  | (Err e, _) => Err e
  end.

(** Rewrite the type tag that follows the 4-byte length of an envelope. *)
Definition rewrite_tag (tag : Z) (bytes : list byte) : list byte :=
  firstn 4 bytes ++ le_bytes 4 tag ++ skipn 8 bytes.

(** The layout the indexation encoder writes, for any type tag and data. *)
Definition indexation_bytes (type : Z) (index : string)
  (data : option (list byte)) : list byte :=
  let bytes := match data with Some bytes => bytes | None => [] end in
  le_bytes 4 type
  ++ (le_bytes 2 (Z.of_nat (String.length index)) ++ list_byte_of_string index)
  ++ le_bytes 4 (len bytes) ++ bytes.

(** The bytes of the concrete scenario: outer length 11, the indexation
    tag, string length 1, the byte "A", data length 0. *)
Definition scenario_bytes : list byte :=
  [x0b; x00; x00; x00;  x02; x00; x00; x00;  x01; x00;  x41;
   x00; x00; x00; x00].

End EncoderParts.

(** ** Wire layout and validity of a payload *)

Section Layout.

Context {X : Collaborators} {Y : CollaboratorLayout X}.

(** The bytes of the variant body of a payload, type tag first, and of its
    envelope. *)
Fixpoint variant_bytes (object : Payload) : list byte :=
  match object with
  | TransactionPayload essence unlockBlocks =>
      le_bytes 4 TRANSACTION_PAYLOAD_TYPE
      ++ essence_bytes essence ++ unlockBlocks_bytes unlockBlocks
  | MilestonePayload index timestamp parent1MessageId parent2MessageId
      inclusionMerkleProof publicKeys receipt signatures =>
      let embedded :=
        match receipt with
        | Some r => variant_bytes r
        | None => []
        end in
      le_bytes 4 MILESTONE_PAYLOAD_TYPE
      ++ le_bytes 4 index ++ le_bytes 8 timestamp
      ++ parent1MessageId ++ parent2MessageId ++ inclusionMerkleProof
      ++ le_bytes 1 (len publicKeys) ++ List.concat publicKeys
      ++ (le_bytes 4 (len embedded) ++ embedded)
      ++ le_bytes 1 (len signatures) ++ List.concat signatures
  | IndexationPayload index data =>
      let bytes := match data with Some bytes => bytes | None => [] end in
      le_bytes 4 INDEXATION_PAYLOAD_TYPE
      ++ (le_bytes 2 (Z.of_nat (String.length index))
          ++ list_byte_of_string index)
      ++ le_bytes 4 (len bytes) ++ bytes
  | ReceiptPayload migratedAt funds =>
      le_bytes 4 RECEIPT_PAYLOAD_TYPE
      ++ le_bytes 4 migratedAt ++ funds_bytes funds
  | UntypedPayload _ => []
  end.

Definition body_bytes (object : option Payload) : list byte :=
  match object with
  | Some object => variant_bytes object
  | None => []
  end.

Definition envelope_bytes (object : option Payload) : list byte :=
  le_bytes 4 (len (body_bytes object)) ++ body_bytes object.

Definition in_range (lo v hi : Z) : bool := (lo <=? v) && (v <? hi).

(** The body fits the 4-byte length field and meets the minimum size its
    decoder asks for. *)
Definition valid_size (min : Z) (object : Payload) : bool :=
  in_range min (len (variant_bytes object)) (2 ^ 32).

Definition valid_receipt (object : Payload) : bool :=
  match object with
  | ReceiptPayload migratedAt funds =>
      in_range 0 migratedAt (2 ^ 32) && valid_funds funds
      && valid_size MIN_RECEIPT_PAYLOAD_LENGTH object
  | _ => false
  end.

(** The payload values the codec is meant for: fields within the range of
    their wire width (a timestamp within the integers a host number holds
    exactly), digests, keys and signatures of their fixed size, at most 255
    keys and signatures, an index of 1 to 64 code units (the lengths the
    encoder accepts) whose bytes fit the 2-byte string length, an embedded
    payload that is absent or a valid receipt, collaborator values valid for their own
    codecs, and a body that meets the minimum size its decoder checks (for a
    milestone, one key and one signature suffice) and fits the 4-byte length
    field. *)
Definition valid_payload (object : Payload) : bool :=
  match object with
  | TransactionPayload essence unlockBlocks =>
      valid_essence essence && valid_unlockBlocks unlockBlocks
      && valid_size MIN_TRANSACTION_PAYLOAD_LENGTH object
  | MilestonePayload index timestamp parent1MessageId parent2MessageId
      inclusionMerkleProof publicKeys receipt signatures =>
      in_range 0 index (2 ^ 32) && in_range 0 timestamp (2 ^ 53)
      && (len parent1MessageId =? MESSAGE_ID_LENGTH)
      && (len parent2MessageId =? MESSAGE_ID_LENGTH)
      && (len inclusionMerkleProof =? MERKLE_PROOF_LENGTH)
      && (len publicKeys <? 256)
      && forallb (fun key => len key =? Ed25519.PUBLIC_KEY_SIZE) publicKeys
      && match receipt with
         | Some r => valid_receipt r
         | None => true
         end
      && (len signatures <? 256)
      && forallb (fun sig => len sig =? Ed25519.SIGNATURE_SIZE) signatures
      && valid_size MIN_MILESTONE_PAYLOAD_LENGTH object
  | IndexationPayload index data =>
      in_range MIN_INDEXATION_KEY_LENGTH (utf16_length index)
        (MAX_INDEXATION_KEY_LENGTH + 1)
      && (Z.of_nat (String.length index) <? 65536)
      && valid_size MIN_INDEXATION_PAYLOAD_LENGTH object
  | ReceiptPayload _ _ => valid_receipt object
  | UntypedPayload _ => false
  end.

Definition valid (object : option Payload) : bool :=
  match object with
  | Some object => valid_payload object
  | None => true
  end.

(** What a decoder makes of an encoded payload: absent indexation data
    comes back as the empty byte sequence. *)
Definition decoded_form (object : option Payload) : option Payload :=
  match object with
  | Some (IndexationPayload index None) => Some (IndexationPayload index (Some []))
  | _ => object
  end.

End Layout.

(** ** A reference instance of the collaborators *)

(** Stand-ins for the three sub-codecs, used to run the codec on concrete
    values: each value is an opaque byte content written as a tag byte, a
    2-byte length and the content.  They satisfy the contract assumed of
    the collaborators ([Reference_laws]). *)
Module Reference.

Section Blob.

Variable tag : Z.

Definition blob_valid (content : list byte) : bool := len content <? 65536.

Definition blob_bytes (content : list byte) : list byte :=
  le_bytes 1 tag ++ le_bytes 2 (len content) ++ content.

Definition blob_serialize (content : list byte) : Writer unit :=
  WriteStream.bind (WriteStream.writeByte "blob.tag" tag) (fun _ =>
  WriteStream.bind (WriteStream.writeUInt16 "blob.length" (len content)) (fun _ =>
  WriteStream.writeBytes content)).

Definition blob_deserialize : Reader (list byte) :=
  ReadStream.bind (ReadStream.readByte "blob.tag" true) (fun t =>
  if t =? tag then
    ReadStream.bind (ReadStream.readUInt16 "blob.length" true) (fun n =>
    ReadStream.readFixedHex "blob.content" n)
  else ReadStream.throw (Collaborator "blob.tag")).

End Blob.

#[local] Instance collaborators : Collaborators := {|
  TransactionEssence := list byte;
  UnlockBlocks := list byte;
  MigratedFunds := list byte;
  TRANSACTION_ESSENCE_TYPE := 0;
  MERKLE_PROOF_LENGTH := 32;
  MIN_MIGRATED_FUNDS_LENGTH := 1;
  serializeTransactionEssence := blob_serialize 0;
  deserializeTransactionEssence := blob_deserialize 0;
  serializeUnlockBlocks := blob_serialize 1;
  deserializeUnlockBlocks := blob_deserialize 1;
  serializeFunds := blob_serialize 2;
  deserializeFunds := blob_deserialize 2
|}.

#[local] Instance layout : CollaboratorLayout collaborators := {|
  valid_essence := blob_valid;
  essence_bytes := blob_bytes 0;
  valid_unlockBlocks := blob_valid;
  unlockBlocks_bytes := blob_bytes 1;
  valid_funds := blob_valid;
  funds_bytes := blob_bytes 2
|}.

End Reference.

(** ** Concrete values *)

Section ConcreteValues.

#[local] Existing Instance Reference.collaborators.
#[local] Existing Instance Reference.layout.

Definition digest32 : list byte := repeat x00 32.
Definition signature64 : list byte := repeat x01 64.

(** A milestone with exactly one public key, one signature and no embedded
    receipt. *)
Definition smallest_milestone : option Payload :=
  Some (MilestonePayload 7 1600000000 digest32 digest32 digest32
          [digest32] None [signature64]).

(** The indexation payload with index "A" and no data. *)
Definition indexation_A : option Payload := Some (IndexationPayload "A" None).

(** A transaction whose essence content is 203 zero bytes, with no unlock
    block content. *)
Definition zero_essence : list byte := repeat x00 203.

Definition zero_transaction : option Payload :=
  Some (TransactionPayload zero_essence []).

Definition small_transaction : Payload := TransactionPayload [x05] [].

(** A hand-built milestone whose embedded payload is a transaction. *)
Definition milestone_with_transaction : option Payload :=
  Some (MilestonePayload 7 1600000000 digest32 digest32 digest32
          [digest32] (Some small_transaction) [signature64]).

Definition milestone_with_transaction_bytes : list byte :=
  storage (snd (serializePayload milestone_with_transaction WriteStream.empty)).

Definition index_of_length (n : nat) : string :=
  string_of_list_byte (repeat x41 n).


(** The body of [scenario_bytes], after the length field. *)
Definition scenario_body : list byte := skipn 4 scenario_bytes.

(** Ten bytes that pass the precheck and decode: the index is empty. *)
Definition ten_bytes : list byte :=
  [x02; x00; x00; x00;  x00; x00;  x00; x00; x00; x00].

(** Nine bytes that pass the precheck and fail in the read of the data
    length. *)
Definition nine_bytes : list byte := firstn 9 ten_bytes.

End ConcreteValues.

(** ** Notions for the further properties *)

(** A read is quiet at a position when it does not fail there with a
    type-tag mismatch. *)
Definition quiet {A : Type} (m : Reader A) (s : list byte) (i : Z) : Prop :=
  forall c t j, m s i <> (Err (TypeMismatch c t), j).

(** A read that never fails with a type-tag mismatch. *)
Definition no_mismatch {A : Type} (m : Reader A) : Prop :=
  forall s i, quiet m s i.

Section FurtherNotions.

Context {X : Collaborators} {Y : CollaboratorLayout X}.

(** The conditions of [valid_payload] on the fields of a milestone, its
    embedded payload and its size left aside. *)
Definition valid_milestone_fields (index timestamp : Z)
  (parent1MessageId parent2MessageId inclusionMerkleProof : list byte)
  (publicKeys signatures : list (list byte)) : bool :=
  in_range 0 index (2 ^ 32) && in_range 0 timestamp (2 ^ 53)
  && (len parent1MessageId =? MESSAGE_ID_LENGTH)
  && (len parent2MessageId =? MESSAGE_ID_LENGTH)
  && (len inclusionMerkleProof =? MERKLE_PROOF_LENGTH)
  && (len publicKeys <? 256)
  && forallb (fun key => len key =? Ed25519.PUBLIC_KEY_SIZE) publicKeys
  && (len signatures <? 256)
  && forallb (fun sig => len sig =? Ed25519.SIGNATURE_SIZE) signatures.

(** The bytes of a milestone up to its embedded payload. *)
Definition milestone_head_bytes (index timestamp : Z)
  (parent1MessageId parent2MessageId inclusionMerkleProof : list byte)
  (publicKeys : list (list byte)) : list byte :=
  le_bytes 4 MILESTONE_PAYLOAD_TYPE
  ++ le_bytes 4 index ++ le_bytes 8 timestamp
  ++ parent1MessageId ++ parent2MessageId ++ inclusionMerkleProof
  ++ le_bytes 1 (len publicKeys) ++ List.concat publicKeys.

End FurtherNotions.

(** ** Concrete values for the further properties *)

Section FurtherValues.

#[local] Existing Instance Reference.collaborators.
#[local] Existing Instance Reference.layout.

(** A milestone with one public key, no receipt and no signature: its body
    has 150 bytes, fewer than the 210 the decoder asks for. *)
Definition unsigned_milestone : option Payload :=
  Some (MilestonePayload 7 1600000000 digest32 digest32 digest32
          [digest32] None []).

(** A milestone whose embedded payload is a valid indexation payload. *)
Definition milestone_with_indexation : option Payload :=
  Some (MilestonePayload 7 1600000000 digest32 digest32 digest32
          [digest32] (Some (IndexationPayload "A" None)) [signature64]).

(** The transaction tag followed by an essence type that is not the known
    one. *)
Definition unknown_essence_bytes : list byte :=
  le_bytes 4 TRANSACTION_PAYLOAD_TYPE ++ [x01] ++ [x00; x00; x00].

(** A writer that already holds two bytes. *)
Definition used_writer : WriteStream := mkWriteStream [x07; x07] 2.

End FurtherValues.

(** * Properties *)

(** Unfolds the size constants to their numerals. *)
Ltac sizes :=
  unfold MIN_MILESTONE_PAYLOAD_LENGTH, MIN_INDEXATION_PAYLOAD_LENGTH,
    MIN_TRANSACTION_PAYLOAD_LENGTH, MIN_RECEIPT_PAYLOAD_LENGTH,
    MIN_PAYLOAD_LENGTH, TYPE_LENGTH, STRING_LENGTH, MESSAGE_ID_LENGTH,
    Ed25519.PUBLIC_KEY_SIZE, Ed25519.SIGNATURE_SIZE,
    UINT64_SIZE, UINT32_SIZE, UINT16_SIZE, BYTE_SIZE in *.

(** ** Bytes and fixed-width integers *)

Lemma Z_of_byte_range (b : byte) : 0 <= Z_of_byte b < 256.
Proof.
  unfold Z_of_byte. pose proof (Byte.to_N_bounded b). lia.
Qed.

Lemma Z_of_byte_of_Z (z : Z) : Z_of_byte (byte_of_Z z) = z mod 256.
Proof.
  unfold Z_of_byte, byte_of_Z.
  assert (Hr : 0 <= z mod 256 < 256) by (apply Z.mod_pos_bound; lia).
  destruct (Byte.of_N (Z.to_N (z mod 256))) as [b|] eqn:E.
  - apply Byte.to_of_N in E. rewrite E. lia.
  - apply Byte.of_N_None_iff in E. lia.
Qed.

Lemma byte_of_Z_of_byte (b : byte) : byte_of_Z (Z_of_byte b) = b.
Proof.
  unfold byte_of_Z. rewrite Z.mod_small by apply Z_of_byte_range.
  unfold Z_of_byte. rewrite N2Z.id, Byte.of_to_N. reflexivity.
Qed.

Lemma length_le_bytes (n : nat) (z : Z) : List.length (le_bytes n z) = n.
Proof.
  revert z. induction n as [|n IH]; intro z; simpl; [reflexivity|].
  now rewrite IH.
Qed.

Lemma len_le_bytes (n : nat) (z : Z) : len (le_bytes n z) = Z.of_nat n.
Proof. unfold len. now rewrite length_le_bytes. Qed.

Lemma le_value_le_bytes (n : nat) (z : Z) :
  le_value (le_bytes n z) = z mod 256 ^ Z.of_nat n.
Proof.
  revert z. induction n as [|n IH]; intro z.
  - simpl. now rewrite Z.mod_1_r.
  - cbn [le_bytes le_value]. rewrite Z_of_byte_of_Z, IH.
    rewrite Nat2Z.inj_succ, Z.pow_succ_r by lia.
    rewrite Z.rem_mul_r by lia. reflexivity.
Qed.

Lemma le_value_range (bs : list byte) :
  0 <= le_value bs < 256 ^ len bs.
Proof.
  unfold len. induction bs as [|b bs IH].
  - simpl. lia.
  - cbn [le_value List.length]. rewrite Nat2Z.inj_succ, Z.pow_succ_r by lia.
    pose proof (Z_of_byte_range b). lia.
Qed.

Lemma le_value_small (n : nat) (z : Z) :
  0 <= z < 256 ^ Z.of_nat n -> le_value (le_bytes n z) = z.
Proof.
  intro H. rewrite le_value_le_bytes. now apply Z.mod_small.
Qed.

Lemma Number_of_BigInt_safe (z : Z) :
  0 <= z < 2 ^ 53 -> Number_of_BigInt z = z.
Proof.
  intros [H0 H1]. unfold Number_of_BigInt.
  destruct (Z.eq_dec z 0) as [->|Hz]; [reflexivity|].
  assert (Z.log2 z < 53) by (apply Z.log2_lt_pow2; lia).
  destruct (Z.ltb_spec (Z.log2 z) 53); [reflexivity | lia].
Qed.

(** A string of at least one code unit has at least one byte. *)
Lemma utf16_length_bytes (s : string) :
  1 <= utf16_length s -> 1 <= Z.of_nat (String.length s).
Proof.
  destruct s as [|c rest]; cbn [utf16_length String.length]; lia.
Qed.

Lemma length_list_byte_of_string (s : string) :
  List.length (list_byte_of_string s) = String.length s.
Proof.
  induction s as [|a s IH]; [reflexivity|].
  cbn. f_equal. exact IH.
Qed.

(** ** Byte sequences inside a storage *)

Lemma len_app {A : Type} (l l' : list A) : len (l ++ l') = len l + len l'.
Proof. unfold len. rewrite length_app. lia. Qed.

Lemma len_nonneg {A : Type} (l : list A) : 0 <= len l.
Proof. unfold len. lia. Qed.

Lemma len_cons {A : Type} (a : A) (l : list A) : len (a :: l) = 1 + len l.
Proof. unfold len. cbn [List.length]. lia. Qed.

Lemma bytes_at_app (s : list byte) (i : Z) (a b : list byte) :
  bytes_at s i (a ++ b) <-> bytes_at s i a /\ bytes_at s (i + len a) b.
Proof.
  split.
  - intros (pre & suf & -> & <-). split.
    + exists pre, (b ++ suf). now rewrite <- app_assoc.
    + exists (pre ++ a), suf. rewrite len_app. split; [|reflexivity].
      now rewrite <- !app_assoc.
  - intros [(pre & suf & -> & <-) (pre' & suf' & E & L)].
    exists pre, suf'. split; [|reflexivity].
    assert (Hl : List.length pre' = List.length (pre ++ a)).
    { unfold len in L. rewrite length_app. lia. }
    assert (Hp : pre' = pre ++ a).
    { apply (f_equal (firstn (List.length pre'))) in E.
      rewrite (firstn_app _ pre'), Nat.sub_diag, firstn_all, firstn_O, app_nil_r in E.
      rewrite app_assoc, Hl in E.
      rewrite firstn_app, Nat.sub_diag, firstn_all, firstn_O, app_nil_r in E.
      now symmetry. }
    subst pre'. rewrite <- !app_assoc in E.
    apply app_inv_head in E. apply app_inv_head in E. subst suf.
    now rewrite <- app_assoc.
Qed.

Lemma bytes_at_bounds (s : list byte) (i : Z) (bs : list byte) :
  bytes_at s i bs -> 0 <= i /\ i + len bs <= len s.
Proof.
  intros (pre & suf & -> & <-). rewrite !len_app.
  pose proof (len_nonneg pre). pose proof (len_nonneg suf). lia.
Qed.

Lemma slice_bytes_at (s : list byte) (i : Z) (bs : list byte) :
  bytes_at s i bs -> ReadStream.slice s i (len bs) = bs.
Proof.
  intros (pre & suf & -> & <-). unfold ReadStream.slice, len.
  rewrite !Nat2Z.id, skipn_app, skipn_all, Nat.sub_diag. cbn [skipn app].
  now rewrite firstn_app, Nat.sub_diag, firstn_all, firstn_O, app_nil_r.
Qed.

(** ** Reads of what a write laid down *)

Section ReadLemmas.

Import ReadStream.

Lemma readFixedHex_at (name : string) (s : list byte) (i : Z) (bs : list byte) :
  bytes_at s i bs -> readFixedHex name (len bs) s i = (Ok bs, i + len bs).
Proof.
  intro H. unfold readFixedHex.
  destruct (bytes_at_bounds _ _ _ H) as [_ Hb].
  destruct (Z.leb_spec (i + len bs) (len s)); [|lia].
  now rewrite slice_bytes_at.
Qed.

Lemma readUInt_at (n : nat) (name : string) (moveIndex : bool)
  (s : list byte) (i v : Z) :
  bytes_at s i (le_bytes n v) -> 0 <= v < 256 ^ Z.of_nat n ->
  readUInt (Z.of_nat n) name moveIndex s i
  = (Ok v, if moveIndex then i + Z.of_nat n else i).
Proof.
  intros H Hv. unfold readUInt.
  destruct (bytes_at_bounds _ _ _ H) as [_ Hb]. rewrite len_le_bytes in Hb.
  destruct (Z.leb_spec (i + Z.of_nat n) (len s)); [|lia].
  rewrite <- (len_le_bytes n v) at 1. rewrite slice_bytes_at by assumption.
  now rewrite le_value_small.
Qed.

Lemma readString_at (name : string) (s : list byte) (i : Z) (str : string) :
  bytes_at s i (le_bytes 2 (Z.of_nat (String.length str))
                ++ list_byte_of_string str) ->
  Z.of_nat (String.length str) < 65536 ->
  readString name s i = (Ok str, i + 2 + Z.of_nat (String.length str)).
Proof.
  intros H Hl. apply bytes_at_app in H. destruct H as [H1 H2].
  unfold readString, bind, readUInt16, UINT16_SIZE.
  pose proof (readUInt_at 2 name true s i _ H1) as R1.
  change (Z.of_nat 2) with 2 in R1. rewrite R1 by (cbn; lia).
  rewrite len_le_bytes in H2. change (Z.of_nat 2) with 2 in H2.
  pose proof (readFixedHex_at name _ _ _ H2) as R.
  unfold len in R. rewrite length_list_byte_of_string in R.
  rewrite R, string_of_list_byte_of_string.
  unfold ret. f_equal. 
Qed.

Lemma readFixedHexList_at (name : string) (size : Z) (items : list (list byte))
  (s : list byte) (i : Z) :
  Forall (fun item => len item = size) items ->
  bytes_at s i (List.concat items) ->
  readFixedHexList name size (List.length items) s i
  = (Ok items, i + len (List.concat items)).
Proof.
  intro HF. revert i. induction HF as [|item items Hi HF IH]; intros i H.
  - cbn. unfold ret. f_equal. unfold len. cbn. lia.
  - cbn [List.concat] in H. apply bytes_at_app in H. destruct H as [H1 H2].
    cbn [List.length readFixedHexList List.concat]. unfold bind.
    pose proof (readFixedHex_at name _ _ _ H1) as R.
    rewrite Hi in R, H2. rewrite R, (IH _ H2).
    unfold ret. rewrite len_app, Hi. f_equal. lia.
Qed.

Lemma readFixedHexList_forward (name : string) (size : Z) (count : nat)
  (s : list byte) (i : Z) (items : list (list byte)) (j : Z) :
  0 <= size ->
  readFixedHexList name size count s i = (Ok items, j) -> i <= j.
Proof.
  intro Hs. revert i items j.
  induction count as [|count IH]; intros i items j H.
  - cbn in H. unfold ret in H. injection H as _ <-. lia.
  - cbn [readFixedHexList] in H. unfold bind, readFixedHex in H.
    destruct (i + size <=? len s); [|discriminate].
    destruct (readFixedHexList name size count s (i + size))
      as [[rest|e] k] eqn:E; [|discriminate].
    apply IH in E. unfold ret in H. injection H as _ <-. lia.
Qed.

Lemma bind_ext {A B : Type} (m : Reader A) (k1 k2 : A -> Reader B)
  (s : list byte) (i : Z) :
  (forall a j, m s i = (Ok a, j) -> k1 a s j = k2 a s j) ->
  bind m k1 s i = bind m k2 s i.
Proof.
  intro H. unfold bind. destruct (m s i) as [[a|e] j]; [|reflexivity].
  now apply H.
Qed.

Lemma bind_Ok {A B : Type} (m : Reader A) (k : A -> Reader B)
  (s : list byte) (i : Z) (a : A) (j : Z) :
  m s i = (Ok a, j) -> bind m k s i = k a s j.
Proof. intro H. unfold bind. now rewrite H. Qed.

Lemma bind_inv {A B : Type} (m : Reader A) (k : A -> Reader B)
  (s : list byte) (i : Z) (b : B) (j : Z) :
  bind m k s i = (Ok b, j) ->
  exists a i', m s i = (Ok a, i') /\ k a s i' = (Ok b, j).
Proof.
  unfold bind. destruct (m s i) as [[a|e] i']; [|discriminate].
  intro H. now exists a, i'.
Qed.

Lemma hasRemaining_eq (n : Z) (s : list byte) (i : Z) :
  hasRemaining n s i = (Ok (i + n <=? len s), i).
Proof. reflexivity. Qed.

Lemma readUInt_inv (w : Z) (name : string) (moveIndex : bool)
  (s : list byte) (i v j : Z) :
  readUInt w name moveIndex s i = (Ok v, j) ->
  i + w <= len s /\ j = (if moveIndex then i + w else i)
  /\ v = le_value (slice s i w).
Proof.
  unfold readUInt. destruct (Z.leb_spec (i + w) (len s)) as [Hle|Hle];
    [|discriminate].
  intro H. injection H as <- <-. auto.
Qed.

Lemma readFixedHex_inv (name : string) (n : Z) (s : list byte) (i : Z)
  (bs : list byte) (j : Z) :
  readFixedHex name n s i = (Ok bs, j) ->
  i + n <= len s /\ j = i + n /\ bs = slice s i n.
Proof.
  unfold readFixedHex. destruct (Z.leb_spec (i + n) (len s)) as [Hle|Hle];
    [|discriminate].
  intro H. injection H as <- <-. auto.
Qed.

End ReadLemmas.

(** ** The recursion of the envelope decoder *)

Section Recursion.

Context {X : Collaborators}.
Import ReadStream.
Local Open Scope reader_scope.

Ltac reader_unfold :=
  unfold bind, hasRemaining, ReadStream.length, unused, throw, ret,
    readUInt32, readUInt64, readUInt16, readByte, readUInt, readFixedHex.

Lemma deserializeMilestonePayload_split (self : Reader (option Payload))
  (s : list byte) (i : Z) :
  deserializeMilestonePayload self s i
  = (h <- milestone_head ;; receipt <- self ;; milestone_tail h receipt) s i.
Proof.
  unfold deserializeMilestonePayload, milestone_head, milestone_tail.
  reader_unfold. cbn [negb].
  repeat match goal with
    | |- context [if ?c then _ else _] =>
        lazymatch c with
        | context [payload_type] => fail
        | _ => destruct c eqn:?
        end
    end; cbn [negb]; try reflexivity.
  all: repeat match goal with
    | |- context [match readFixedHexList ?a ?b ?c ?d ?e with (_, _) => _ end] =>
        destruct (readFixedHexList a b c d e) as [[?|?] ?] eqn:?
    | |- context [match ?f ?a ?b with (_, _) => _ end] =>
        destruct (f a b) as [[?|?] ?] eqn:?
    end; try reflexivity.
Qed.

Lemma milestone_head_forward (s : list byte) (i : Z) (h : MilestoneHead) (j : Z) :
  0 <= MERKLE_PROOF_LENGTH ->
  milestone_head s i = (Ok h, j) -> i + 4 <= j.
Proof.
  intros Hm H. unfold milestone_head in H. revert H. reader_unfold.
  repeat match goal with
    | |- context [if ?c then _ else _] => destruct c eqn:?
    end; cbn [negb]; try discriminate.
  match goal with
  | |- context [readFixedHexList ?a ?b ?c ?d ?e] =>
      destruct (readFixedHexList a b c d e) as [[keys|e'] k] eqn:E
  end; [|discriminate].
  apply readFixedHexList_forward in E; [|sizes; lia].
  intro H. injection H as _ <-. sizes. lia.
Qed.

Ltac split_if :=
  match goal with
  | |- (if ?c then _ else _) _ _ = _ => destruct c eqn:?
  end.

(** The body of the envelope decoder only calls itself further on. *)
Lemma deserializePayloadBody_ext (self1 self2 : Reader (option Payload))
  (s : list byte) (i : Z) :
  0 <= MERKLE_PROOF_LENGTH ->
  (i + 4 <= len s -> forall j, i + 8 <= j -> self1 s j = self2 s j) ->
  deserializePayloadBody self1 s i = deserializePayloadBody self2 s i.
Proof.
  intros Hm H. unfold deserializePayloadBody.
  apply bind_ext. intros enough j E. rewrite hasRemaining_eq in E.
  injection E as <- <-. split_if; [reflexivity|].
  apply negb_false_iff, Z.leb_le in Heqb. sizes. specialize (H Heqb).
  apply bind_ext. intros payloadLength j E.
  apply readUInt_inv in E. destruct E as (_ & -> & _).
  apply bind_ext. intros enough j E. rewrite hasRemaining_eq in E.
  injection E as <- <-. split_if; [reflexivity|].
  split_if; [|reflexivity].
  apply bind_ext. intros payloadType j E.
  apply readUInt_inv in E. destruct E as (_ & -> & _).
  split_if; [reflexivity|]. split_if; [|reflexivity].
  sizes. unfold bind at 1 2. rewrite !deserializeMilestonePayload_split.
  assert (E : bind milestone_head
                (fun h => bind self1 (fun receipt => milestone_tail h receipt))
                s (i + 4)
              = bind milestone_head
                  (fun h => bind self2 (fun receipt => milestone_tail h receipt))
                  s (i + 4)).
  { apply bind_ext. intros h j E. apply milestone_head_forward in E; [|assumption].
    unfold bind. rewrite H by lia. reflexivity. }
  rewrite E. reflexivity.
Qed.

Lemma deserializePayloadFuel_stable (fuel : nat) (s : list byte) (i : Z) :
  0 <= MERKLE_PROOF_LENGTH ->
  Z.max 0 (len s - i) < Z.of_nat fuel ->
  deserializePayloadFuel (S fuel) s i = deserializePayloadFuel fuel s i.
Proof.
  intro Hm. revert i. induction fuel as [|fuel IH]; intros i Hf; [lia|].
  change (deserializePayloadBody (deserializePayloadFuel (S fuel)) s i
          = deserializePayloadBody (deserializePayloadFuel fuel) s i).
  apply deserializePayloadBody_ext; [assumption|].
  intros Hi j Hj. apply IH. lia.
Qed.

(** [deserializePayload] satisfies the recursive equation of the source:
    its body, calling itself for the payload embedded in a milestone. *)
Lemma deserializePayload_unfold (s : list byte) (i : Z) :
  0 <= MERKLE_PROOF_LENGTH -> 0 <= i ->
  deserializePayload s i = deserializePayloadBody deserializePayload s i.
Proof.
  intros Hm Hi. unfold deserializePayload at 1.
  change (deserializePayloadBody (deserializePayloadFuel (List.length s)) s i
          = deserializePayloadBody deserializePayload s i).
  apply deserializePayloadBody_ext; [assumption|].
  intros Hl j Hj. unfold deserializePayload. symmetry.
  apply deserializePayloadFuel_stable; [assumption|]. unfold len in *. lia.
Qed.

(** More fuel than the size of the storage never changes the result. *)
Lemma deserializePayload_fuel_independent (s : list byte) (i : Z) (k : nat) :
  0 <= MERKLE_PROOF_LENGTH -> 0 <= i ->
  deserializePayloadFuel (S (List.length s) + k) s i = deserializePayload s i.
Proof.
  intros Hm Hi. unfold deserializePayload.
  induction k as [|k IH].
  - now rewrite Nat.add_0_r.
  - rewrite <- IH. rewrite Nat.add_succ_r.
    apply deserializePayloadFuel_stable; [assumption|]. unfold len. lia.
Qed.

(** The envelope decoder, case by case: the precheck, the bound on the
    declared length, the empty payload, the dispatch. *)
Lemma deserializePayloadBody_cases (self : Reader (option Payload))
  (s : list byte) (i : Z) :
  deserializePayloadBody self s i
  = if i + 4 <=? len s then
      let payloadLength := le_value (slice s i 4) in
      if i + 4 + payloadLength <=? len s then
        if 0 <? payloadLength then
          (payloadType <- readUInt32 "payload.type" false ;;
           dispatch self payloadType) s (i + 4)
        else (Ok None, i + 4)
      else (Err (PayloadLengthExceeds payloadLength (len s - (i + 4))), i + 4)
    else (Err (DataTooShort CPayload (len s) MIN_PAYLOAD_LENGTH), i).
Proof.
  unfold deserializePayloadBody, dispatch.
  unfold bind at 1. rewrite hasRemaining_eq. sizes.
  destruct (i + 4 <=? len s) eqn:E1; cbn [negb]; [|reflexivity].
  unfold bind at 1. unfold readUInt32 at 1, readUInt. sizes. rewrite E1.
  cbv zeta. unfold bind at 1. rewrite hasRemaining_eq.
  destruct (i + 4 + le_value (slice s i 4) <=? len s); cbn [negb];
    [|reflexivity].
  destruct (0 <? le_value (slice s i 4)); reflexivity.
Qed.

Lemma deserializePayload_cases (s : list byte) (i : Z) :
  0 <= MERKLE_PROOF_LENGTH -> 0 <= i ->
  deserializePayload s i
  = if i + 4 <=? len s then
      let payloadLength := le_value (slice s i 4) in
      if i + 4 + payloadLength <=? len s then
        if 0 <? payloadLength then
          (payloadType <- readUInt32 "payload.type" false ;;
           dispatch deserializePayload payloadType) s (i + 4)
        else (Ok None, i + 4)
      else (Err (PayloadLengthExceeds payloadLength (len s - (i + 4))), i + 4)
    else (Err (DataTooShort CPayload (len s) MIN_PAYLOAD_LENGTH), i).
Proof.
  intros Hm Hi. rewrite deserializePayload_unfold by assumption.
  apply deserializePayloadBody_cases.
Qed.

End Recursion.

(** ** Writes *)

Section WriteLemmas.

Import WriteStream.

Lemma overwrite_split (pre rest bs : list byte) :
  overwrite (pre ++ rest) (len pre) bs
  = pre ++ bs ++ skipn (List.length bs) rest.
Proof.
  unfold overwrite, len. rewrite Nat2Z.id.
  rewrite firstn_app, Nat.sub_diag, firstn_all, firstn_O, app_nil_r.
  replace (List.length pre - List.length (pre ++ rest))%nat with 0%nat
    by (rewrite length_app; lia).
  cbn [repeat app]. rewrite skipn_app.
  rewrite skipn_all2 by lia.
  replace (List.length pre + List.length bs - List.length pre)%nat
    with (List.length bs) by lia.
  reflexivity.
Qed.

(** A storage cut at an offset inside it. *)
Lemma cut_at (s : list byte) (i : Z) :
  0 <= i <= len s ->
  exists pre rest, s = pre ++ rest /\ len pre = i.
Proof.
  intro H. exists (firstn (Z.to_nat i) s), (skipn (Z.to_nat i) s).
  split; [now rewrite firstn_skipn|].
  unfold len in *. rewrite length_firstn. lia.
Qed.

Lemma overwrite_nil (bs : list byte) : overwrite [] 0 bs = bs.
Proof.
  unfold overwrite. cbn. rewrite skipn_nil. now rewrite app_nil_r.
Qed.

Lemma overwrite_app (s : list byte) (i : Z) (a b : list byte) :
  0 <= i <= len s ->
  overwrite (overwrite s i a) (i + len a) b = overwrite s i (a ++ b).
Proof.
  intro H. destruct (cut_at s i H) as (pre & rest & -> & <-).
  rewrite !overwrite_split.
  rewrite app_assoc, <- len_app, overwrite_split.
  rewrite skipn_skipn, length_app, <- !app_assoc.
  now rewrite (Nat.add_comm (List.length b)).
Qed.

(** Patching the first bytes of what was just written. *)
Lemma overwrite_patch (s : list byte) (i : Z) (a a' b : list byte) :
  0 <= i <= len s -> List.length a' = List.length a ->
  overwrite (overwrite s i (a ++ b)) i a' = overwrite s i (a' ++ b).
Proof.
  intros H Ha. destruct (cut_at s i H) as (pre & rest & -> & <-).
  rewrite !overwrite_split. rewrite <- !app_assoc.
  rewrite Ha, skipn_app, skipn_all, Nat.sub_diag. cbn [skipn app].
  rewrite !length_app, Ha. reflexivity.
Qed.

Lemma len_overwrite (s : list byte) (i : Z) (bs : list byte) :
  0 <= i <= len s ->
  len (overwrite s i bs) = Z.max (len s) (i + len bs).
Proof.
  intro H. destruct (cut_at s i H) as (pre & rest & -> & <-).
  rewrite overwrite_split. rewrite !len_app. unfold len.
  rewrite length_skipn. lia.
Qed.

Lemma firstn_overwrite (s : list byte) (i : Z) (bs : list byte) (n : nat) :
  0 <= i <= len s -> (n <= Z.to_nat i)%nat ->
  firstn n (overwrite s i bs) = firstn n s.
Proof.
  intros H Hn. destruct (cut_at s i H) as (pre & rest & -> & <-).
  rewrite overwrite_split. unfold len in Hn. rewrite Nat2Z.id in Hn.
  rewrite !firstn_app.
  replace (n - List.length pre)%nat with 0%nat by lia.
  now rewrite !firstn_O.
Qed.

Lemma skipn_overwrite (s : list byte) (i : Z) (bs : list byte) (n : nat) :
  0 <= i <= len s -> i + len bs <= len s ->
  (Z.to_nat (i + len bs) <= n)%nat ->
  skipn n (overwrite s i bs) = skipn n s.
Proof.
  intros H Hb Hn. destruct (cut_at s i H) as (pre & rest & -> & <-).
  rewrite overwrite_split. rewrite len_app in Hb. unfold len in Hn, Hb.
  rewrite app_assoc, !skipn_app.
  rewrite (@skipn_all2 _ n pre) by lia.
  rewrite (@skipn_all2 _ (n - List.length pre) bs) by lia.
  cbn [app]. rewrite skipn_skipn, length_app. f_equal. lia.
Qed.

Lemma bytes_at_overwrite (s : list byte) (i : Z) (bs : list byte) :
  0 <= i <= len s -> bytes_at (overwrite s i bs) i bs.
Proof.
  intro H. destruct (cut_at s i H) as (pre & rest & -> & <-).
  rewrite overwrite_split. now exists pre, (skipn (List.length bs) rest).
Qed.

Lemma wf_writeBytes (bs : list byte) (ws : WriteStream) :
  wf_ws ws -> wf_ws (snd (writeBytes bs ws)).
Proof.
  unfold wf_ws. cbn. intro H. rewrite len_overwrite by assumption.
  pose proof (len_nonneg bs). lia.
Qed.

Lemma frames_refl (ws : WriteStream) : wf_ws ws -> frames ws ws.
Proof. intro H. repeat split; try apply H. lia. Qed.

Lemma frames_trans (a b c : WriteStream) :
  frames a b -> frames b c -> frames a c.
Proof.
  intros (Hb & Hab & Eab) (Hc & Hbc & Ebc). repeat split; try apply Hc.
  - lia.
  - assert (Hf : forall l : list byte,
               firstn (Z.to_nat (writeIndex a)) l
               = firstn (Z.to_nat (writeIndex a))
                   (firstn (Z.to_nat (writeIndex b)) l)).
    { intro l. rewrite firstn_firstn. f_equal. lia. }
    rewrite (Hf (storage c)), Ebc, <- Hf. exact Eab.
Qed.

Lemma frames_writeBytes (bs : list byte) (ws : WriteStream) :
  wf_ws ws -> frames ws (snd (writeBytes bs ws)).
Proof.
  intro H. split; [now apply wf_writeBytes|]. cbn. split.
  - pose proof (len_nonneg bs). lia.
  - now apply firstn_overwrite.
Qed.

Lemma writeBytes_app (a b : list byte) (ws : WriteStream) :
  wf_ws ws ->
  writeBytes b (snd (writeBytes a ws)) = writeBytes (a ++ b) ws.
Proof.
  intro H. unfold writeBytes. cbn. rewrite overwrite_app by assumption.
  rewrite len_app. f_equal. f_equal. lia.
Qed.

Lemma wbind_Ok {A B : Type} (m : Writer A) (k : A -> Writer B)
  (ws : WriteStream) (a : A) (ws' : WriteStream) :
  m ws = (Ok a, ws') -> bind m k ws = k a ws'.
Proof. intro H. unfold bind. now rewrite H. Qed.

Lemma framing_bind {A B : Type} (m : Writer A) (k : A -> Writer B) :
  framing m -> (forall a, framing (k a)) -> framing (bind m k).
Proof.
  intros Hm Hk ws Hw. unfold bind. specialize (Hm ws Hw).
  destruct (m ws) as [[a|e] ws1]; cbn in *; [|assumption].
  eapply frames_trans; [exact Hm|]. apply Hk. apply Hm.
Qed.

Lemma framing_ret {A : Type} (a : A) : framing (ret a).
Proof. intros ws Hw. now apply frames_refl. Qed.

Lemma framing_throw {A : Type} (e : Error) : framing (throw (A := A) e).
Proof. intros ws Hw. now apply frames_refl. Qed.

Lemma framing_writeBytes (bs : list byte) : framing (writeBytes bs).
Proof. intros ws Hw. now apply frames_writeBytes. Qed.

Lemma framing_writeUInt (n : nat) (name : string) (v : Z) :
  framing (writeUInt n name v).
Proof. apply framing_writeBytes. Qed.

Lemma framing_writeFixedHex (name : string) (n : Z) (val : list byte) :
  framing (writeFixedHex name n val).
Proof.
  unfold writeFixedHex. destruct (n =? len val).
  - apply framing_writeBytes.
  - apply framing_throw.
Qed.

Lemma framing_writeString (name : string) (val : string) :
  framing (writeString name val).
Proof.
  unfold writeString. apply framing_bind.
  - apply framing_writeUInt.
  - intros _. apply framing_writeBytes.
Qed.

Lemma framing_writeFixedHexList (name : string) (n : Z)
  (items : list (list byte)) :
  framing (writeFixedHexList name n items).
Proof.
  induction items as [|item items IH]; cbn [writeFixedHexList].
  - apply framing_ret.
  - apply framing_bind; [apply framing_writeFixedHex | intros _; exact IH].
Qed.

End WriteLemmas.

(** Splits a conjunction of boolean conditions into its conjuncts. *)
Ltac split_valid H :=
  repeat match type of H with
    | (_ && _) = true =>
        let H' := fresh H in
        apply andb_prop in H; destruct H as [H H']
    end.

(** ** What a valid payload is written as *)

Section EncodeLayout.

Context {X : Collaborators} {Y : CollaboratorLayout X}
  {L : CollaboratorLaws X Y}.
Import WriteStream.

Lemma writes_bind (m : Writer unit) (k : unit -> Writer unit) (a b : list byte) :
  writes m a -> writes (k tt) b -> writes (bind m k) (a ++ b).
Proof.
  intros Hm Hk ws Hw. unfold bind. rewrite (Hm ws Hw).
  cbn [writeBytes]. rewrite <- (writeBytes_app a b ws Hw).
  apply Hk. now apply wf_writeBytes.
Qed.

Lemma writes_ret : writes (ret tt) [].
Proof.
  intros ws Hw. unfold ret, writeBytes. destruct ws as [s i]. cbn.
  unfold wf_ws in Hw. cbn in Hw.
  destruct (cut_at s i Hw) as (pre & rest & -> & <-).
  rewrite overwrite_split. cbn. f_equal. f_equal. unfold len. cbn. lia.
Qed.

Lemma writes_writeBytes (bs : list byte) : writes (writeBytes bs) bs.
Proof. intros ws _. reflexivity. Qed.

Lemma writes_writeUInt (n : nat) (name : string) (v : Z) :
  writes (writeUInt n name v) (le_bytes n v).
Proof. intros ws _. reflexivity. Qed.

Lemma writes_writeFixedHex (name : string) (n : Z) (val : list byte) :
  len val = n -> writes (writeFixedHex name n val) val.
Proof.
  intros <- ws _. unfold writeFixedHex. now rewrite Z.eqb_refl.
Qed.

Lemma writes_writeString (name : string) (val : string) :
  writes (writeString name val)
    (le_bytes 2 (Z.of_nat (String.length val)) ++ list_byte_of_string val).
Proof.
  unfold writeString. apply writes_bind.
  - apply writes_writeUInt.
  - apply writes_writeBytes.
Qed.

Lemma writes_writeFixedHexList (name : string) (n : Z)
  (items : list (list byte)) :
  Forall (fun item => len item = n) items ->
  writes (writeFixedHexList name n items) (List.concat items).
Proof.
  induction 1 as [|item items Hi HF IH]; cbn [writeFixedHexList List.concat].
  - apply writes_ret.
  - apply writes_bind; [now apply writes_writeFixedHex | exact IH].
Qed.

(** The placeholder, the body and the back-patch amount to the length
    followed by the body. *)
Lemma writes_envelope (variant : Payload -> Writer unit)
  (object : option Payload) (body : list byte) :
  writes (match object with
          | None => ret tt
          | Some object => variant object
          end) body ->
  writes (serializePayloadBody variant object)
    (le_bytes 4 (len body) ++ body).
Proof.
  intros Hb ws Hw. unfold serializePayloadBody.
  rewrite (wbind_Ok getWriteIndex _ ws (writeIndex ws) ws eq_refl).
  set (ws1 := snd (writeBytes (le_bytes 4 0) ws)).
  rewrite (wbind_Ok (writeUInt32 "payload.length" 0) _ ws tt ws1 eq_refl).
  assert (Hw1 : wf_ws ws1) by (apply (wf_writeBytes (le_bytes 4 0) ws Hw)).
  set (ws2 := snd (writeBytes (le_bytes 4 0 ++ body) ws)).
  assert (E : match object with
              | Some object => variant object
              | None => ret tt
              end ws1 = (Ok tt, ws2)).
  { rewrite (Hb ws1 Hw1). unfold ws1. now rewrite writeBytes_app. }
  rewrite (wbind_Ok _ _ ws1 tt ws2 E).
  rewrite (wbind_Ok getWriteIndex _ ws2 (writeIndex ws2) ws2 eq_refl).
  unfold bind, setWriteIndex, writeUInt32, writeUInt, ws2.
  unfold writeBytes. cbn [storage writeIndex fst snd]. f_equal. f_equal.
  - rewrite len_app, len_le_bytes.
    replace (writeIndex ws + (Z.of_nat 4 + len body) - writeIndex ws - UINT32_SIZE)
      with (len body) by (unfold UINT32_SIZE; lia).
    apply overwrite_patch; [apply Hw | now rewrite !length_le_bytes].
Qed.

Lemma forallb_len (n : Z) (items : list (list byte)) :
  forallb (fun item => len item =? n) items = true ->
  Forall (fun item => len item = n) items.
Proof.
  intro H. apply Forall_forall. intros item Hi.
  rewrite forallb_forall in H. apply Z.eqb_eq. now apply H.
Qed.

Lemma writes_receipt (object : Payload) :
  valid_receipt object = true ->
  writes (serializeVariant object) (variant_bytes object).
Proof.
  destruct object as [| | |migratedAt funds|]; try discriminate.
  intro H. cbn [valid_receipt] in H. split_valid H.
  cbn [serializeVariant variant_bytes payload_type].
  unfold serializeReceiptPayload.
  apply writes_bind; [apply writes_writeUInt|].
  apply writes_bind; [apply writes_writeUInt|].
  intros ws Hw. now apply (serialize_valid _ _ _ _ funds_laws).
Qed.

Lemma writes_variant (object : Payload) :
  valid_payload object = true ->
  writes (serializeVariant object) (variant_bytes object).
Proof.
  destruct object as [essence unlockBlocks
                     |index timestamp p1 p2 proof keys receipt sigs
                     |index data|migratedAt funds|type];
    intro H; cbn [valid_payload] in H.
  - split_valid H. cbn [serializeVariant variant_bytes payload_type].
    unfold serializeTransactionPayload.
    apply writes_bind; [apply writes_writeUInt|].
    rewrite Z.eqb_refl.
    apply writes_bind.
    + intros ws Hw. now apply (serialize_valid _ _ _ _ essence_laws).
    + intros ws Hw. now apply (serialize_valid _ _ _ _ unlockBlocks_laws).
  - split_valid H. cbn [serializeVariant variant_bytes payload_type].
    unfold serializeMilestonePayload.
    repeat (apply writes_bind;
            [first [ apply writes_writeUInt
                   | apply writes_writeFixedHex; now apply Z.eqb_eq
                   | apply writes_writeFixedHexList; now apply forallb_len ]|]).
    apply writes_bind.
    { apply writes_envelope. destruct receipt as [r|].
      - now apply writes_receipt.
      - apply writes_ret. }
    apply writes_bind; [apply writes_writeUInt|].
    apply writes_writeFixedHexList. now apply forallb_len.
  - split_valid H. cbn [serializeVariant variant_bytes payload_type].
    unfold serializeIndexationPayload.
    unfold in_range in H. apply andb_prop in H. destruct H as [Hlo Hhi].
    apply Z.leb_le in Hlo. apply Z.ltb_lt in Hhi.
    destruct (Z.ltb_spec (utf16_length index)
                MIN_INDEXATION_KEY_LENGTH); [lia|].
    destruct (Z.ltb_spec MAX_INDEXATION_KEY_LENGTH
                (utf16_length index)); [lia|].
    apply writes_bind; [apply writes_writeUInt|].
    apply writes_bind; [apply writes_writeString|].
    destruct data as [[|b bytes]|].
    + rewrite app_nil_r. apply (writes_writeUInt 4).
    + apply writes_bind; [apply writes_writeUInt|].
      now apply writes_writeFixedHex.
    + rewrite app_nil_r. apply (writes_writeUInt 4).
  - now apply writes_receipt.
  - discriminate.
Qed.

(** A valid payload, absent or not, is written as its envelope. *)
Lemma writes_payload (object : option Payload) :
  valid object = true ->
  writes (serializePayload object) (envelope_bytes object).
Proof.
  intro H. unfold serializePayload, envelope_bytes.
  apply writes_envelope. destruct object as [object|]; cbn [body_bytes].
  - now apply writes_variant.
  - apply writes_ret.
Qed.

End EncodeLayout.

(** ** What the layout of a valid payload is read as *)

Section DecodeLayout.

Context {X : Collaborators} {Y : CollaboratorLayout X}
  {L : CollaboratorLaws X Y}.
Import ReadStream.

Ltac split_bytes H :=
  repeat match type of H with
    | bytes_at _ _ (_ ++ _) =>
        let H' := fresh H in
        apply bytes_at_app in H; destruct H as [H' H]
    end.

(** One successful read at the head of a [bind]. *)
Ltac read_by tac := erewrite bind_Ok by tac; cbv iota.

Ltac read_uint n H :=
  read_by ltac:(apply (readUInt_at n);
                [exact H
                |unfold TRANSACTION_PAYLOAD_TYPE, MILESTONE_PAYLOAD_TYPE,
                   INDEXATION_PAYLOAD_TYPE, RECEIPT_PAYLOAD_TYPE; lia]).

Ltac has_remaining :=
  rewrite (bind_Ok _ _ _ _ _ _ (hasRemaining_eq _ _ _));
  match goal with
  | |- context [negb (?a <=? ?b)] =>
      replace (a <=? b) with true by (symmetry; apply Z.leb_le; sizes; lia)
  end; cbn [negb].

Lemma in_range_spec (lo v hi : Z) :
  in_range lo v hi = true <-> lo <= v < hi.
Proof.
  unfold in_range. rewrite andb_true_iff, Z.leb_le, Z.ltb_lt. reflexivity.
Qed.

Lemma reads_receipt (object : Payload) (s : list byte) (i : Z) :
  valid_receipt object = true ->
  bytes_at s i (variant_bytes object) ->
  deserializeReceiptPayload s i = (Ok object, i + len (variant_bytes object)).
Proof.
  destruct object as [| | |migratedAt funds|]; try discriminate.
  intros V H. cbn [valid_receipt] in V. split_valid V.
  apply in_range_spec in V, V0. 
  pose proof (bytes_at_bounds _ _ _ H) as [Hi Hb].
  cbn [variant_bytes] in *. split_bytes H.
  unfold deserializeReceiptPayload.
  has_remaining.
  read_uint 4%nat H0. rewrite Z.eqb_refl. cbn [negb].
  read_uint 4%nat H1.
  read_by ltac:(apply (deserialize_valid _ _ _ _ funds_laws); [exact V1 | exact H]).
  unfold ret. f_equal. rewrite !len_app, !len_le_bytes. lia.
Qed.

Lemma reads_transaction (essence : TransactionEssence)
  (unlockBlocks : UnlockBlocks) (s : list byte) (i : Z) :
  let object := TransactionPayload essence unlockBlocks in
  valid_payload object = true ->
  bytes_at s i (variant_bytes object) ->
  deserializeTransactionPayload s i
  = (Ok object, i + len (variant_bytes object)).
Proof.
  intros object V H. subst object. cbn [valid_payload] in V. split_valid V.
  apply in_range_spec in V0.
  pose proof (bytes_at_bounds _ _ _ H) as [Hi Hb].
  cbn [variant_bytes] in *. split_bytes H.
  unfold deserializeTransactionPayload.
  has_remaining.
  read_uint 4%nat H0. rewrite Z.eqb_refl. cbn [negb].
  destruct (essence_type_first essence V) as [rest Hr].
  assert (Hp : bytes_at s (i + 4) (le_bytes 1 TRANSACTION_ESSENCE_TYPE)).
  { pose proof H1 as Hp. rewrite Hr in Hp.
    change (byte_of_Z TRANSACTION_ESSENCE_TYPE :: rest)
      with (le_bytes 1 TRANSACTION_ESSENCE_TYPE ++ rest) in Hp.
    apply bytes_at_app in Hp. exact (proj1 Hp). }
  read_by ltac:(apply (readUInt_at 1);
                [exact Hp | pose proof essence_type_range; lia]).
  rewrite Z.eqb_refl.
  read_by ltac:(apply (deserialize_valid _ _ _ _ essence_laws);
                [exact V | exact H1]).
  read_by ltac:(apply (deserialize_valid _ _ _ _ unlockBlocks_laws);
                [exact V1 | exact H]).
  unfold ret. f_equal. rewrite !len_app, !len_le_bytes. lia.
Qed.

Lemma reads_indexation (index : string) (data : option (list byte))
  (s : list byte) (i : Z) :
  let object := IndexationPayload index data in
  valid_payload object = true ->
  bytes_at s i (variant_bytes object) ->
  deserializeIndexationPayload s i
  = (Ok (IndexationPayload index
           (Some match data with Some bytes => bytes | None => [] end)),
     i + len (variant_bytes object)).
Proof.
  intros object V H. subst object. cbn [valid_payload] in V. split_valid V.
  apply in_range_spec in V, V0.
  pose proof (bytes_at_bounds _ _ _ H) as [Hi Hb].
  cbn [variant_bytes] in *.
  set (bytes := match data with Some bytes => bytes | None => [] end) in *.
  rewrite !len_app, !len_le_bytes in V0, Hb.
  pose proof (len_nonneg (list_byte_of_string index)).
  pose proof (len_nonneg bytes).
  split_bytes H.
  unfold deserializeIndexationPayload.
  has_remaining.
  read_uint 4%nat H2. rewrite Z.eqb_refl. cbn [negb].
  read_by ltac:(apply readString_at;
                [exact H3 | unfold MAX_INDEXATION_KEY_LENGTH in V; lia]).
  assert (E : i + Z.of_nat 4 + 2 + Z.of_nat (String.length index)
              = i + len (le_bytes 4 INDEXATION_PAYLOAD_TYPE)
                + len (le_bytes 2 (Z.of_nat (String.length index))
                       ++ list_byte_of_string index)).
  { rewrite len_app, !len_le_bytes. unfold len.
    rewrite length_list_byte_of_string. lia. }
  rewrite E.
  read_uint 4%nat H4.
  read_by ltac:(apply readFixedHex_at; exact H).
  unfold ret. f_equal. rewrite !len_app, !len_le_bytes. lia.
Qed.

Lemma merkle_nonneg : 0 <= MERKLE_PROOF_LENGTH.
Proof. exact merkle_proof_length_nonneg. Qed.

(** An envelope around [body]: empty, or starting with a type tag whose
    decoder reads the whole body. *)
Lemma reads_envelope (body : list byte) (result : option Payload)
  (s : list byte) (i : Z) :
  bytes_at s i (le_bytes 4 (len body) ++ body) ->
  len body < 2 ^ 32 ->
  match body with
  | [] => result = None
  | _ :: _ =>
      exists tag rest,
        body = le_bytes 4 tag ++ rest /\ 0 <= tag < 2 ^ 32
        /\ dispatch deserializePayload tag s (i + 4)
           = (Ok result, i + 4 + len body)
  end ->
  deserializePayload s i = (Ok result, i + 4 + len body).
Proof.
  intros H Hl Hbody.
  pose proof (bytes_at_bounds _ _ _ H) as [Hi Hb].
  rewrite len_app, len_le_bytes in Hb. change (Z.of_nat 4) with 4 in Hb.
  pose proof (len_nonneg body) as Hn.
  rewrite deserializePayload_cases by (apply merkle_nonneg || assumption).
  apply bytes_at_app in H. destruct H as [H1 H2].
  pose proof (slice_bytes_at _ _ _ H1) as E.
  rewrite len_le_bytes in E, H2. change (Z.of_nat 4) with 4 in E, H2.
  rewrite E. rewrite le_value_small by (change (Z.of_nat 4) with 4; lia).
  destruct (Z.leb_spec (i + 4) (len s)); [|lia].
  cbv zeta. destruct (Z.leb_spec (i + 4 + len body) (len s)); [|lia].
  destruct body as [|b body].
  - subst result. change (len (@nil byte)) with 0. now rewrite Z.add_0_r.
  - destruct Hbody as (tag & rest & Eb & Ht & Hd).
    replace (0 <? len (b :: body)) with true
      by (symmetry; apply Z.ltb_lt; rewrite len_cons; pose proof (len_nonneg body); lia).
    rewrite Eb in H2. apply bytes_at_app in H2. destruct H2 as [H2 _].
    read_uint 4%nat H2. exact Hd.
Qed.

Lemma dispatch_tag (self : Reader (option Payload)) (object : Payload) :
  dispatch self (payload_type object)
  = match object with
    | TransactionPayload _ _ =>
        bind deserializeTransactionPayload (fun payload => ret (Some payload))
    | MilestonePayload _ _ _ _ _ _ _ _ =>
        bind (deserializeMilestonePayload self) (fun payload => ret (Some payload))
    | IndexationPayload _ _ =>
        bind deserializeIndexationPayload (fun payload => ret (Some payload))
    | ReceiptPayload _ _ =>
        bind deserializeReceiptPayload (fun payload => ret (Some payload))
    | UntypedPayload type => dispatch self type
    end.
Proof. destruct object; reflexivity. Qed.

(** The embedded payload of a valid milestone: absent, or a valid receipt. *)
Lemma reads_embedded (receipt : option Payload) (s : list byte) (i : Z) :
  match receipt with Some r => valid_receipt r | None => true end = true ->
  len (body_bytes receipt) < 2 ^ 32 ->
  bytes_at s i (envelope_bytes receipt) ->
  deserializePayload s i = (Ok receipt, i + len (envelope_bytes receipt)).
Proof.
  intros V Hl H. unfold envelope_bytes in *.
  rewrite len_app, len_le_bytes, Z.add_assoc. change (Z.of_nat 4) with 4.
  apply reads_envelope; [assumption..|].
  destruct receipt as [r|]; [|reflexivity].
  destruct r as [| | |migratedAt funds|]; try discriminate.
  cbn [body_bytes] in *.
  assert (Hr : bytes_at s (i + 4)
                 (variant_bytes (ReceiptPayload migratedAt funds))).
  { apply bytes_at_app in H. destruct H as [_ H].
    now rewrite len_le_bytes in H. }
  pose proof (reads_receipt _ _ _ V Hr) as R.
  cbn [variant_bytes] in *.
  destruct (le_bytes 4 RECEIPT_PAYLOAD_TYPE ++ _) as [|b body] eqn:E;
    [discriminate|].
  rewrite <- E in *.
  exists RECEIPT_PAYLOAD_TYPE, (le_bytes 4 migratedAt ++ funds_bytes funds).
  split; [reflexivity|]. split; [unfold RECEIPT_PAYLOAD_TYPE; lia|].
  change RECEIPT_PAYLOAD_TYPE
    with (payload_type (ReceiptPayload migratedAt funds)) at 1.
  rewrite dispatch_tag. now rewrite (bind_Ok _ _ _ _ _ _ R).
Qed.

Ltac take H H1 := apply bytes_at_app in H; destruct H as [H1 H].

Lemma reads_milestone (index timestamp : Z) (p1 p2 proof : list byte)
  (keys : list (list byte)) (receipt : option Payload)
  (sigs : list (list byte)) (s : list byte) (i : Z) :
  let object := MilestonePayload index timestamp p1 p2 proof keys receipt sigs in
  valid_payload object = true ->
  bytes_at s i (variant_bytes object) ->
  deserializeMilestonePayload deserializePayload s i
  = (Ok object, i + len (variant_bytes object)).
Proof.
  intros object V H. subst object. cbn [valid_payload] in V.
  repeat rewrite andb_true_iff in V.
  destruct V as ((((((((((Vi & Vt) & Vp1) & Vp2) & Vm) & Vk) & Vks) & Vr)
                   & Vs) & Vss) & Vz).
  apply in_range_spec in Vi, Vt, Vz.
  apply Z.eqb_eq in Vp1, Vp2, Vm. apply Z.ltb_lt in Vk, Vs.
  apply forallb_len in Vks, Vss.
  pose proof (bytes_at_bounds _ _ _ H) as [Hi Hb].
  cbn [variant_bytes] in *.
  change (le_bytes 4 (len match receipt with
                          | Some r => variant_bytes r
                          | None => []
                          end)
          ++ match receipt with Some r => variant_bytes r | None => [] end)
    with (envelope_bytes receipt) in *.
  assert (Hemb : len (body_bytes receipt) < 2 ^ 32).
  { revert Vz. rewrite !len_app. unfold envelope_bytes. rewrite len_app.
    intro Vz.
    pose proof (len_nonneg (le_bytes 4 MILESTONE_PAYLOAD_TYPE)).
    pose proof (len_nonneg (le_bytes 4 index)).
    pose proof (len_nonneg (le_bytes 8 timestamp)).
    pose proof (len_nonneg p1). pose proof (len_nonneg p2).
    pose proof (len_nonneg proof).
    pose proof (len_nonneg (le_bytes 1 (len keys))).
    pose proof (len_nonneg (List.concat keys)).
    pose proof (len_nonneg (le_bytes 4 (len (body_bytes receipt)))).
    pose proof (len_nonneg (le_bytes 1 (len sigs))).
    pose proof (len_nonneg (List.concat sigs)).
    lia. }
  take H Htag. take H Hidx. take H Hts. take H Hp1. take H Hp2. take H Hm.
  take H Hkc. take H Hks. take H Hr. take H Hsc.
  unfold deserializeMilestonePayload.
  has_remaining.
  read_uint 4%nat Htag. rewrite Z.eqb_refl. cbn [negb].
  read_uint 4%nat Hidx.
  read_uint 8%nat Hts.
  read_by ltac:(rewrite <- Vp1; apply readFixedHex_at; exact Hp1).
  read_by ltac:(rewrite <- Vp2; apply readFixedHex_at; exact Hp2).
  read_by ltac:(rewrite <- Vm; apply readFixedHex_at; exact Hm).
  read_by ltac:(apply (readUInt_at 1); [exact Hkc | pose proof (len_nonneg keys); lia]).
  unfold len at 1. rewrite Nat2Z.id.
  read_by ltac:(apply readFixedHexList_at; [exact Vks | exact Hks]).
  read_by ltac:(apply reads_embedded; [exact Vr | exact Hemb | exact Hr]).
  replace (match receipt with
           | Some r => negb (payload_type r =? RECEIPT_PAYLOAD_TYPE)
           | None => false
           end) with false
    by (destruct receipt as [[]|]; try discriminate; reflexivity).
  read_by ltac:(apply (readUInt_at 1); [exact Hsc | pose proof (len_nonneg sigs); lia]).
  unfold len at 1. rewrite Nat2Z.id.
  read_by ltac:(apply readFixedHexList_at; [exact Vss | exact H]).
  unfold ret. rewrite Number_of_BigInt_safe by lia. f_equal.
  rewrite !len_app, !len_le_bytes. lia.
Qed.

(** Decoding the envelope of a valid payload gives the payload back, absent
    indexation data read as empty, and consumes exactly the envelope. *)
Lemma reads_payload (object : option Payload) (s : list byte) (i : Z) :
  valid object = true ->
  bytes_at s i (envelope_bytes object) ->
  deserializePayload s i
  = (Ok (decoded_form object), i + len (envelope_bytes object)).
Proof.
  intros V H. unfold envelope_bytes in *.
  rewrite len_app, len_le_bytes, Z.add_assoc. change (Z.of_nat 4) with 4.
  destruct object as [object|]; cbn [body_bytes valid] in *.
  2:{ apply reads_envelope; [assumption | cbn; lia | reflexivity]. }
  assert (Hv : bytes_at s (i + 4) (variant_bytes object)).
  { apply bytes_at_app in H. destruct H as [_ H].
    now rewrite len_le_bytes in H. }
  assert (Hs : exists min, valid_size min object = true /\ 4 <= min).
  { destruct object; cbn [valid_payload valid_receipt] in V;
      try discriminate; repeat rewrite andb_true_iff in V.
    - exists MIN_TRANSACTION_PAYLOAD_LENGTH. split; [apply V | sizes; lia].
    - exists MIN_MILESTONE_PAYLOAD_LENGTH. split; [apply V|].
      pose proof merkle_nonneg. sizes. lia.
    - exists MIN_INDEXATION_PAYLOAD_LENGTH. split; [apply V | sizes; lia].
    - exists 4. split; [|lia]. destruct V as [_ V].
      apply in_range_spec in V. apply in_range_spec. split; [|apply V].
      cbn [variant_bytes]. rewrite len_app, len_le_bytes.
      pose proof (len_nonneg (le_bytes 4 migratedAt ++ funds_bytes funds)).
      lia. }
  destruct Hs as (min & Hs & Hmin). apply in_range_spec in Hs.
  apply reads_envelope; [assumption | lia |].
  destruct (variant_bytes object) as [|b body] eqn:E;
    [change (len (@nil byte)) with 0 in Hs; lia|].
  rewrite <- E in *. clear E b body.
  exists (payload_type object).
  assert (Ht : 0 <= payload_type object < 2 ^ 32).
  { destruct object; cbn [valid_payload] in V; try discriminate;
      unfold payload_type, TRANSACTION_PAYLOAD_TYPE, MILESTONE_PAYLOAD_TYPE,
        INDEXATION_PAYLOAD_TYPE, RECEIPT_PAYLOAD_TYPE; lia. }
  destruct object as [essence unlockBlocks
                     |index timestamp p1 p2 proof keys receipt sigs
                     |index data|migratedAt funds|type];
    try discriminate; rewrite dispatch_tag.
  - eexists. split; [reflexivity|]. split; [exact Ht|].
    now rewrite (bind_Ok _ _ _ _ _ _ (reads_transaction _ _ _ _ V Hv)).
  - eexists. split; [reflexivity|]. split; [exact Ht|].
    now rewrite (bind_Ok _ _ _ _ _ _ (reads_milestone _ _ _ _ _ _ _ _ _ _ V Hv)).
  - eexists. split; [reflexivity|]. split; [exact Ht|].
    rewrite (bind_Ok _ _ _ _ _ _ (reads_indexation _ _ _ _ V Hv)).
    destruct data; reflexivity.
  - eexists. split; [reflexivity|]. split; [exact Ht|].
    now rewrite (bind_Ok _ _ _ _ _ _ (reads_receipt _ _ _ V Hv)).
Qed.

End DecodeLayout.

(** ** Reads that only look ahead *)

Section Tame.

Import ReadStream.

Lemma skipn_further (s1 s2 : list byte) (i j : Z) :
  0 <= i <= j ->
  skipn (Z.to_nat i) s1 = skipn (Z.to_nat i) s2 ->
  skipn (Z.to_nat j) s1 = skipn (Z.to_nat j) s2.
Proof.
  intros H E.
  replace (Z.to_nat j) with (Z.to_nat (j - i) + Z.to_nat i)%nat by lia.
  now rewrite <- !skipn_skipn, E.
Qed.

(** [P] holds of every value [m] returns; the continuation need only be
    tame on such values. *)
Lemma tame_bind_on {A B : Type} (P : A -> Prop) (m : Reader A)
  (k : A -> Reader B) :
  tame m ->
  (forall s i a j, m s i = (Ok a, j) -> P a) ->
  (forall a, P a -> tame (k a)) ->
  tame (bind m k).
Proof.
  intros [Lm Fm] HP Hk. split.
  - intros s1 s2 i Hi Hl Hs. unfold bind. rewrite <- (Lm s1 s2 i Hi Hl Hs).
    destruct (m s1 i) as [[a|e] j] eqn:E; [|reflexivity].
    pose proof (Fm _ _ _ _ Hi E) as Hj.
    apply (Hk a (HP _ _ _ _ E)); [lia | assumption|].
    apply (skipn_further s1 s2 i j); [lia | assumption].
  - intros s i b j Hi H. apply bind_inv in H.
    destruct H as (a & i' & Hm & Hka).
    pose proof (Fm _ _ _ _ Hi Hm) as Hi'.
    pose proof (proj2 (Hk a (HP _ _ _ _ Hm)) s i' b j) as Hj.
    specialize (Hj ltac:(lia) Hka). lia.
Qed.

Lemma tame_bind {A B : Type} (m : Reader A) (k : A -> Reader B) :
  tame m -> (forall a, tame (k a)) -> tame (bind m k).
Proof.
  intros Hm Hk. apply (tame_bind_on (fun _ => True)); auto.
Qed.

Lemma tame_ret {A : Type} (a : A) : tame (ret a).
Proof.
  split.
  - intros s1 s2 i _ _ _. reflexivity.
  - intros s i a' j _ H. unfold ret in H. injection H as _ <-. lia.
Qed.

Lemma tame_throw {A : Type} (e : Error) : tame (throw (A := A) e).
Proof.
  split.
  - intros s1 s2 i _ _ _. reflexivity.
  - intros s i a' j _ H. discriminate.
Qed.

Lemma tame_hasRemaining (n : Z) : tame (hasRemaining n).
Proof.
  split.
  - intros s1 s2 i _ Hl _. unfold hasRemaining. now rewrite Hl.
  - intros s i a j _ H. unfold hasRemaining in H. injection H as _ <-. lia.
Qed.

Lemma tame_length : tame ReadStream.length.
Proof.
  split.
  - intros s1 s2 i _ Hl _. unfold ReadStream.length. now rewrite Hl.
  - intros s i a j _ H. unfold ReadStream.length in H. injection H as _ <-. lia.
Qed.

Lemma tame_unused : tame unused.
Proof.
  split.
  - intros s1 s2 i _ Hl _. unfold unused. now rewrite Hl.
  - intros s i a j _ H. unfold unused in H. injection H as _ <-. lia.
Qed.

Lemma tame_readUInt (w : Z) (name : string) (moveIndex : bool) :
  0 <= w -> tame (readUInt w name moveIndex).
Proof.
  intro Hw. split.
  - intros s1 s2 i _ Hl Hs. unfold readUInt, slice. now rewrite Hl, Hs.
  - intros s i a j _ H. apply readUInt_inv in H.
    destruct H as (_ & -> & _). destruct moveIndex; lia.
Qed.

Lemma readUInt_nonneg (w : Z) (name : string) (moveIndex : bool)
  (s : list byte) (i v j : Z) :
  readUInt w name moveIndex s i = (Ok v, j) -> 0 <= v.
Proof.
  intro H. apply readUInt_inv in H. destruct H as (_ & _ & ->).
  apply le_value_range.
Qed.

Lemma tame_readFixedHex (name : string) (n : Z) :
  0 <= n -> tame (readFixedHex name n).
Proof.
  intro Hn. split.
  - intros s1 s2 i _ Hl Hs. unfold readFixedHex, slice. now rewrite Hl, Hs.
  - intros s i a j _ H. apply readFixedHex_inv in H.
    destruct H as (_ & -> & _). lia.
Qed.

Lemma tame_readString (name : string) : tame (readString name).
Proof.
  unfold readString.
  apply (tame_bind_on (fun v => 0 <= v)).
  - apply tame_readUInt. unfold UINT16_SIZE. lia.
  - intros s i a j H. eapply readUInt_nonneg. exact H.
  - intros n Hn. apply tame_bind; [now apply tame_readFixedHex|].
    intro bytes. apply tame_ret.
Qed.

Lemma tame_readFixedHexList (name : string) (size : Z) (count : nat) :
  0 <= size -> tame (readFixedHexList name size count).
Proof.
  intro Hs. induction count as [|count IH]; cbn [readFixedHexList].
  - apply tame_ret.
  - apply tame_bind; [now apply tame_readFixedHex|].
    intro item. apply tame_bind; [exact IH|]. intro rest. apply tame_ret.
Qed.

Lemma tame_if {A : Type} (c : bool) (m1 m2 : Reader A) :
  tame m1 -> tame m2 -> tame (if c then m1 else m2).
Proof. now destruct c. Qed.

End Tame.

Section TameCodec.

Context {X : Collaborators} {Y : CollaboratorLayout X}
  {L : CollaboratorLaws X Y}.
Import ReadStream.

Lemma tame_of_laws {A : Type} (serialize : A -> Writer unit)
  (deserialize : Reader A) (valid : A -> bool) (bytes : A -> list byte) :
  CodecLaws serialize deserialize valid bytes -> tame deserialize.
Proof.
  intro C. split.
  - exact (deserialize_local _ _ _ _ C).
  - exact (deserialize_forward _ _ _ _ C).
Qed.

Ltac tame_step :=
  first
    [ apply tame_ret
    | apply tame_throw
    | apply tame_hasRemaining
    | apply tame_length
    | apply tame_unused
    | apply tame_readString
    | apply tame_readUInt; sizes; lia
    | apply tame_readFixedHex; first [sizes; lia | apply merkle_nonneg | assumption]
    | apply tame_readFixedHexList; sizes; lia
    | apply (tame_of_laws _ _ _ _ essence_laws)
    | apply (tame_of_laws _ _ _ _ unlockBlocks_laws)
    | apply (tame_of_laws _ _ _ _ funds_laws)
    | assumption
    | apply tame_if
    | apply (tame_bind_on (fun v => 0 <= v));
      [ apply tame_readUInt; sizes; lia
      | intros ? ? ? ? E; eapply readUInt_nonneg; exact E
      | intros ? ? ]
    | apply tame_bind; [|intro] ].

Lemma tame_transaction : tame deserializeTransactionPayload.
Proof. unfold deserializeTransactionPayload. repeat tame_step. Qed.

Lemma tame_receipt : tame deserializeReceiptPayload.
Proof. unfold deserializeReceiptPayload. repeat tame_step. Qed.

Lemma tame_indexation : tame deserializeIndexationPayload.
Proof. unfold deserializeIndexationPayload. repeat tame_step. Qed.

Lemma tame_milestone (self : Reader (option Payload)) :
  tame self -> tame (deserializeMilestonePayload self).
Proof.
  intro Hs. unfold deserializeMilestonePayload. repeat tame_step.
Qed.

Lemma tame_dispatch (self : Reader (option Payload)) (payloadType : Z) :
  tame self -> tame (dispatch self payloadType).
Proof.
  intro Hs. unfold dispatch.
  pose proof tame_transaction. pose proof tame_receipt.
  pose proof tame_indexation. pose proof (tame_milestone self Hs).
  repeat tame_step.
Qed.

Lemma tame_body (self : Reader (option Payload)) :
  tame self -> tame (deserializePayloadBody self).
Proof.
  intro Hs. unfold deserializePayloadBody.
  pose proof tame_transaction. pose proof tame_receipt.
  pose proof tame_indexation. pose proof (tame_milestone self Hs).
  repeat tame_step.
Qed.

Lemma tame_fuel (fuel : nat) : tame (deserializePayloadFuel fuel).
Proof.
  induction fuel as [|fuel IH]; cbn [deserializePayloadFuel].
  - apply tame_throw.
  - now apply tame_body.
Qed.

End TameCodec.

(** ** The envelope encoder, step by step *)

Section Framing.

Context {X : Collaborators} {Y : CollaboratorLayout X}
  {L : CollaboratorLaws X Y}.
Import WriteStream.

Lemma serializePayloadBody_run (variant : Payload -> Writer unit)
  (object : option Payload) (ws : WriteStream) :
  serializePayloadBody variant object ws
  = match envelope_body variant object (after_placeholder ws) with
    | (Ok _, ws2) => (Ok tt, back_patch (writeIndex ws) ws2)
    | (Err e, ws2) => (Err e, ws2)
    end.
Proof.
  unfold serializePayloadBody, envelope_body, after_placeholder.
  rewrite (wbind_Ok getWriteIndex _ ws (writeIndex ws) ws eq_refl).
  rewrite (wbind_Ok (writeUInt32 "payload.length" 0) _ ws tt
             (snd (writeUInt32 "payload.length" 0 ws)) eq_refl).
  unfold bind at 1.
  destruct (match object with
            | Some object0 => variant object0
            | None => ret tt
            end (snd (writeUInt32 "payload.length" 0 ws)))
    as [[u|e] ws2]; reflexivity.
Qed.

Lemma wf_after_placeholder (ws : WriteStream) :
  wf_ws ws -> wf_ws (after_placeholder ws).
Proof. apply (wf_writeBytes (le_bytes 4 0)). Qed.

Lemma writeIndex_after_placeholder (ws : WriteStream) :
  writeIndex (after_placeholder ws) = writeIndex ws + 4.
Proof. reflexivity. Qed.

Lemma placeholder_at (ws : WriteStream) :
  wf_ws ws ->
  bytes_at (storage (after_placeholder ws)) (writeIndex ws) (le_bytes 4 0).
Proof. intro H. now apply bytes_at_overwrite. Qed.

(** Bytes that lie before a common prefix of two storages are in both. *)
Lemma bytes_at_prefix (s s' : list byte) (i : Z) (bs : list byte) (n : nat) :
  bytes_at s i bs -> (Z.to_nat (i + len bs) <= n)%nat ->
  firstn n s' = firstn n s -> bytes_at s' i bs.
Proof.
  intros (pre & suf & -> & <-) Hn E.
  exists pre, (skipn (List.length (pre ++ bs)) s'). split; [|reflexivity].
  rewrite app_assoc.
  rewrite <- (firstn_skipn (List.length (pre ++ bs)) s') at 1. f_equal.
  apply (f_equal (firstn (List.length (pre ++ bs)))) in E.
  rewrite !firstn_firstn in E.
  replace (Nat.min (List.length (pre ++ bs)) n) with (List.length (pre ++ bs))
    in E by (rewrite length_app; unfold len in Hn; lia).
  rewrite E, app_assoc, firstn_app, Nat.sub_diag, firstn_all, firstn_O.
  now rewrite app_nil_r.
Qed.

Lemma framing_envelope (variant : Payload -> Writer unit)
  (object : option Payload) :
  framing (envelope_body variant object) ->
  framing (serializePayloadBody variant object).
Proof.
  intros Hb ws Hw. rewrite serializePayloadBody_run.
  pose proof (wf_after_placeholder ws Hw) as Hw1.
  pose proof (frames_writeBytes (le_bytes 4 0) ws Hw) as F1.
  change (snd (writeBytes (le_bytes 4 0) ws)) with (after_placeholder ws) in F1.
  specialize (Hb _ Hw1).
  destruct (envelope_body variant object (after_placeholder ws))
    as [[u|e] ws2]; cbn [snd] in *.
  2:{ eapply frames_trans; eassumption. }
  pose proof (frames_trans _ _ _ F1 Hb) as F.
  destruct Hb as (Hw2 & Hi2 & E2). destruct F as (_ & Hi & E).
  rewrite writeIndex_after_placeholder in Hi2.
  unfold wf_ws in *. unfold back_patch, frames, wf_ws. cbn [storage writeIndex].
  assert (Hs : 0 <= writeIndex ws <= len (storage ws2)) by lia.
  rewrite len_overwrite by assumption. rewrite len_le_bytes.
  repeat split; try lia.
  rewrite firstn_overwrite by (assumption || lia). exact E.
Qed.

Lemma framing_collaborator {A : Type} (serialize : A -> Writer unit)
  (deserialize : Reader A) (valid : A -> bool) (bytes : A -> list byte) (a : A) :
  CodecLaws serialize deserialize valid bytes -> framing (serialize a).
Proof. intros C ws Hw. now apply (serialize_frames _ _ _ _ C). Qed.

Lemma framing_if {A : Type} (c : bool) (m1 m2 : Writer A) :
  framing m1 -> framing m2 -> framing (if c then m1 else m2).
Proof. now destruct c. Qed.

Ltac framing_step :=
  lazymatch goal with
  | |- framing (WriteStream.bind _ _) => apply framing_bind; [|intro]
  | |- framing (WriteStream.ret _) => apply framing_ret
  | |- framing (WriteStream.throw _) => apply framing_throw
  | |- framing (WriteStream.writeUInt32 _ _) => apply framing_writeUInt
  | |- framing (WriteStream.writeUInt64 _ _) => apply framing_writeUInt
  | |- framing (WriteStream.writeUInt16 _ _) => apply framing_writeUInt
  | |- framing (WriteStream.writeByte _ _) => apply framing_writeUInt
  | |- framing (WriteStream.writeFixedHex _ _ _) => apply framing_writeFixedHex
  | |- framing (WriteStream.writeString _ _) => apply framing_writeString
  | |- framing (writeFixedHexList _ _ _) => apply framing_writeFixedHexList
  | |- framing (serializeTransactionEssence _) =>
      apply (framing_collaborator _ _ _ _ _ essence_laws)
  | |- framing (serializeUnlockBlocks _) =>
      apply (framing_collaborator _ _ _ _ _ unlockBlocks_laws)
  | |- framing (serializeFunds _) =>
      apply (framing_collaborator _ _ _ _ _ funds_laws)
  | |- framing (if _ then _ else _) => apply framing_if
  | |- _ => assumption
  end.

(** Every variant encoder, on any payload object and whether it succeeds or
    fails, leaves what lies before the cursor alone. *)
Lemma framing_variant : forall object : Payload, framing (serializeVariant object).
Proof.
  fix IH 1. intros [essence unlockBlocks
                   |index timestamp p1 p2 proof keys receipt sigs
                   |index data|migratedAt funds|type];
    cbn [serializeVariant].
  - unfold serializeTransactionPayload.
    apply framing_bind; [framing_step|intro].
    apply framing_if; repeat framing_step.
  - unfold serializeMilestonePayload.
    assert (He : framing (serializePayloadBody serializeVariant receipt)).
    { apply framing_envelope. destruct receipt as [r|]; cbn [envelope_body].
      - apply IH.
      - apply framing_ret. }
    repeat framing_step.
  - unfold serializeIndexationPayload.
    apply framing_if; [framing_step|].
    apply framing_if; [framing_step|].
    destruct data as [[|b bytes]|]; repeat framing_step.
  - unfold serializeReceiptPayload. repeat framing_step.
  - apply framing_throw.
Qed.

Lemma framing_envelope_body (object : option Payload) :
  framing (envelope_body serializeVariant object).
Proof.
  destruct object as [object|]; cbn [envelope_body].
  - apply framing_variant.
  - apply framing_ret.
Qed.

End Framing.

(** ** The reference collaborators meet the contract *)

Lemma blob_laws (tag : Z) :
  0 <= tag < 256 ->
  CodecLaws (Reference.blob_serialize tag) (Reference.blob_deserialize tag)
    Reference.blob_valid (Reference.blob_bytes tag).
Proof.
  intro tag_range. split.
  - intros a ws _ Hw. unfold Reference.blob_serialize, Reference.blob_bytes.
    assert (H : writes (WriteStream.bind (WriteStream.writeByte "blob.tag" tag)
                (fun _ => WriteStream.bind
                   (WriteStream.writeUInt16 "blob.length" (len a))
                   (fun _ => WriteStream.writeBytes a)))
                (le_bytes 1 tag ++ le_bytes 2 (len a) ++ a)).
    { apply writes_bind; [apply writes_writeUInt|].
      apply writes_bind; [apply writes_writeUInt|].
      apply writes_writeBytes. }
    now apply H.
  - intros a. unfold Reference.blob_serialize.
    apply framing_bind; [apply framing_writeUInt|intro].
    apply framing_bind; [apply framing_writeUInt|intro].
    apply framing_writeBytes.
  - intros a s i V H. unfold Reference.blob_valid in V. apply Z.ltb_lt in V.
    unfold Reference.blob_bytes in *. pose proof (len_nonneg a).
    apply bytes_at_app in H. destruct H as [H1 H].
    apply bytes_at_app in H. destruct H as [H2 H].
    unfold Reference.blob_deserialize.
    erewrite bind_Ok by (apply (readUInt_at 1); [exact H1 | lia]).
    cbv iota. rewrite Z.eqb_refl.
    erewrite bind_Ok by (apply (readUInt_at 2); [exact H2 | lia]).
    cbv iota. rewrite (readFixedHex_at _ _ _ _ H).
    f_equal. rewrite !len_app, !len_le_bytes. lia.
  - unfold Reference.blob_deserialize.
    apply (tame_bind_on (fun v => True)); [apply tame_readUInt; sizes; lia|auto|].
    intros t _. apply tame_if; [|apply tame_throw].
    apply (tame_bind_on (fun v => 0 <= v)).
    + apply tame_readUInt; sizes; lia.
    + intros s i a j E. eapply readUInt_nonneg. exact E.
    + intros n Hn. now apply tame_readFixedHex.
  - unfold Reference.blob_deserialize.
    apply (tame_bind_on (fun v => True)); [apply tame_readUInt; sizes; lia|auto|].
    intros t _. apply tame_if; [|apply tame_throw].
    apply (tame_bind_on (fun v => 0 <= v)).
    + apply tame_readUInt; sizes; lia.
    + intros s i a j E. eapply readUInt_nonneg. exact E.
    + intros n Hn. now apply tame_readFixedHex.
Qed.

Lemma Reference_laws : CollaboratorLaws Reference.collaborators Reference.layout.
Proof.
  split.
  - apply (blob_laws 0). lia.
  - apply (blob_laws 1). lia.
  - apply (blob_laws 2). lia.
  - cbn. lia.
  - intros e _. eexists. reflexivity.
  - cbn. lia.
Qed.

(** * The claims of the specification *)

Section Claims.

Context {X : Collaborators} {Y : CollaboratorLayout X}
  {L : CollaboratorLaws X Y}.

Lemma skipn_exact {A : Type} (a b : list A) :
  skipn (List.length a) (a ++ b) = b.
Proof. now rewrite skipn_app, skipn_all, Nat.sub_diag. Qed.

Lemma bytes_at_whole (bs : list byte) : bytes_at bs 0 bs.
Proof. exists [], []. now rewrite app_nil_r. Qed.

Lemma encodePayload_valid (object : option Payload) :
  valid object = true -> encodePayload object = Ok (envelope_bytes object).
Proof.
  intro V. unfold encodePayload.
  rewrite (writes_payload object V WriteStream.empty)
    by (unfold wf_ws; cbn; lia).
  unfold WriteStream.writeBytes, WriteStream.finalBytes. cbn [storage].
  change (storage WriteStream.empty) with (@nil byte).
  change (writeIndex WriteStream.empty) with 0.
  now rewrite overwrite_nil.
Qed.

Lemma valid_body_size (object : option Payload) :
  valid object = true -> len (body_bytes object) < 2 ^ 32.
Proof.
  destruct object as [object|]; [|intros _; cbn; lia].
  cbn [valid body_bytes].
  destruct object; cbn [valid_payload valid_receipt]; try discriminate;
    intro V; repeat rewrite andb_true_iff in V;
    destruct V as [_ V]; apply in_range_spec in V; lia.
Qed.

(** C1, as amended.  For every valid payload value [V] of each of the four
    kinds and for the absent payload, [serializePayload] into a fresh writer
    produces the envelope of [V] and [deserializePayload] on those bytes
    returns [V], consuming all of them, except that absent indexation data
    is returned as empty data; so the value returned equals [V] unless [V]
    is an indexation payload without data. *)
Theorem roundtrip_up_to_absent_data (V : option Payload) :
  valid V = true ->
  exists bytes,
    encodePayload V = Ok bytes
    /\ deserializePayload bytes 0 = (Ok (decoded_form V), len bytes)
    /\ ((forall index, V <> Some (IndexationPayload index None)) ->
        decodePayload bytes = Ok V).
Proof.
  intro HV. exists (envelope_bytes V).
  pose proof (reads_payload V _ 0 HV (bytes_at_whole _)) as R.
  rewrite Z.add_0_l in R.
  split; [now apply encodePayload_valid|]. split; [exact R|].
  intro Hn. unfold decodePayload. rewrite R. cbn [fst]. f_equal.
  destruct V as [[| |index [data|]| |]|]; try reflexivity.
  now destruct (Hn index).
Qed.

(** C2.  For every payload value, absent included: when [serializePayload]
    completes, the 4-byte field at the starting position holds the number of
    bytes the variant codec wrote after it (end position minus start
    position minus 4), the bytes after the field are those the variant codec
    left, and the final position of the writer is the end of the body.  The
    count is below [2 ^ 32], the capacity of the field; for a valid value it
    is the size of the body's layout. *)
Theorem length_field_counts_body (object : option Payload)
  (ws ws' : WriteStream) :
  wf_ws ws ->
  serializePayload object ws = (Ok tt, ws') ->
  let start := writeIndex ws in
  let ws2 := snd (envelope_body serializeVariant object (after_placeholder ws)) in
  let written := writeIndex ws2 - (start + 4) in
  written < 2 ^ 32 ->
  ReadStream.readUInt32 "payload.length" false (storage ws') start
  = (Ok written, start)
  /\ 0 <= written
  /\ writeIndex ws' = writeIndex ws2
  /\ skipn (Z.to_nat (start + 4)) (storage ws')
     = skipn (Z.to_nat (start + 4)) (storage ws2)
  /\ (valid object = true -> written = len (body_bytes object)).
Proof.
  intros Hw H start ws2 written Hlt.
  unfold serializePayload in H. rewrite serializePayloadBody_run in H.
  pose proof (framing_envelope_body object _ (wf_after_placeholder ws Hw)) as F.
  fold ws2 in F. destruct F as (Hw2 & Hi & _).
  rewrite writeIndex_after_placeholder in Hi. fold start in Hi.
  assert (E : ws' = back_patch start ws2).
  { subst ws2.
    destruct (envelope_body serializeVariant object (after_placeholder ws))
      as [[u|e] w2]; [|discriminate].
    injection H as <-. reflexivity. }
  assert (Hs : 0 <= start <= len (storage ws2)).
  { unfold wf_ws in *. subst start. lia. }
  subst ws'. unfold back_patch. cbn [storage writeIndex].
  replace (writeIndex ws2 - start - UINT32_SIZE) with written
    by (unfold written, UINT32_SIZE; lia).
  split; [|split; [|split; [|split]]].
  - apply (readUInt_at 4 "payload.length" false).
    + now apply bytes_at_overwrite.
    + change (Z.of_nat 4) with 4. unfold written. lia.
  - unfold written. lia.
  - reflexivity.
  - apply skipn_overwrite; [assumption| |].
    + rewrite len_le_bytes. unfold wf_ws in Hw2. lia.
    + rewrite len_le_bytes. lia.
  - intro V. unfold written, ws2.
    assert (Wb : writes (envelope_body serializeVariant object)
                   (body_bytes object)).
    { destruct object as [object|]; cbn [envelope_body body_bytes].
      - now apply writes_variant.
      - apply writes_ret. }
    rewrite (Wb _ (wf_after_placeholder ws Hw)).
    cbn [snd WriteStream.writeBytes writeIndex].
    rewrite writeIndex_after_placeholder. subst start. lia.
Qed.

(** C3.  For every valid payload value [V] and every [k] from 0 up to the
    encoded length of [V] minus 1, [deserializePayload] on the first [k]
    bytes of what [serializePayload] produced fails with a truncated-input
    error: with fewer than 4 bytes at the envelope precheck, and otherwise
    because the declared length [L] exceeds the remaining bytes, the error
    reporting [L] and the remaining count [k - 4]. *)
Theorem truncated_prefix_rejected (V : option Payload) (k : Z) :
  valid V = true ->
  0 <= k < len (envelope_bytes V) ->
  let e := truncation_error (len (body_bytes V)) k in
  encodePayload V = Ok (envelope_bytes V)
  /\ decodePayload (firstn (Z.to_nat k) (envelope_bytes V)) = Err e
  /\ error_kind e = TruncatedInput
  /\ (forall s i,
        0 <= i -> len s < i + 4 ->
        deserializePayload s i
        = (Err (DataTooShort CPayload (len s) MIN_PAYLOAD_LENGTH), i))
  /\ (forall s i,
        0 <= i -> i + 4 <= len s ->
        let declared := le_value (ReadStream.slice s i 4) in
        len s - (i + 4) < declared ->
        deserializePayload s i
        = (Err (PayloadLengthExceeds declared (len s - (i + 4))), i + 4)).
Proof.
  intros HV Hk e. split; [now apply encodePayload_valid|].
  split; [|split; [unfold e, truncation_error; now destruct (k <? 4)|]].
  2:{ split.
      - intros s i Hi Hs.
        rewrite deserializePayload_cases by (apply merkle_nonneg || lia).
        destruct (Z.leb_spec (i + 4) (len s)); [lia | reflexivity].
      - intros s i Hi Hs declared Hd.
        rewrite deserializePayload_cases by (apply merkle_nonneg || lia).
        destruct (Z.leb_spec (i + 4) (len s)); [|lia]. cbv zeta.
        fold declared.
        destruct (Z.leb_spec (i + 4 + declared) (len s)); [lia | reflexivity]. }
  pose proof (valid_body_size V HV) as Hs.
  pose proof (len_nonneg (body_bytes V)) as Hn.
  set (prefix := firstn (Z.to_nat k) (envelope_bytes V)).
  assert (Hl : len prefix = k).
  { unfold prefix, len in *. rewrite length_firstn. lia. }
  unfold decodePayload.
  rewrite deserializePayload_cases by (apply merkle_nonneg || lia).
  rewrite Hl, !Z.add_0_l. unfold e, truncation_error.
  destruct (Z.ltb_spec k 4) as [Hk4|Hk4].
  - destruct (Z.leb_spec 4 k); [lia|]. reflexivity.
  - destruct (Z.leb_spec 4 k); [|lia]. cbv zeta.
    assert (E : ReadStream.slice prefix 0 4 = le_bytes 4 (len (body_bytes V))).
    { unfold ReadStream.slice, prefix, envelope_bytes. cbn [Z.to_nat skipn].
      rewrite firstn_firstn.
      replace (Nat.min (Pos.to_nat 4) (Z.to_nat k)) with 4%nat by lia.
      rewrite firstn_app, length_le_bytes, Nat.sub_diag, firstn_O, app_nil_r.
      rewrite <- (length_le_bytes 4 (len (body_bytes V))) at 1.
      apply firstn_all. }
    rewrite E, le_value_small by (change (Z.of_nat 4) with 4; lia).
    unfold envelope_bytes in Hk. rewrite len_app, len_le_bytes in Hk.
    destruct (Z.leb_spec (4 + len (body_bytes V)) k); [lia|]. reflexivity.
Qed.

Ltac invert_reads H :=
  repeat first
    [ apply bind_inv in H; destruct H as (? & ? & _ & H)
    | match type of H with
      | (if ?c then _ else _) _ _ = _ => destruct c
      end
    | discriminate H ].

(** Each variant decoder returns a payload of its own kind. *)
Lemma dispatch_kind (self : Reader (option Payload)) (t : Z)
  (s : list byte) (i : Z) (o : option Payload) (j : Z) :
  dispatch self t s i = (Ok o, j) ->
  exists p, o = Some p /\ payload_type p = t /\ is_typed p = true.
Proof.
  unfold dispatch. intro H.
  destruct (Z.eqb_spec t TRANSACTION_PAYLOAD_TYPE) as [->|].
  { apply bind_inv in H. destruct H as (p & k & Hp & H).
    injection H as <- <-. exists p. split; [reflexivity|].
    unfold deserializeTransactionPayload in Hp. invert_reads Hp.
    injection Hp as <- <-. split; reflexivity. }
  destruct (Z.eqb_spec t MILESTONE_PAYLOAD_TYPE) as [->|].
  { apply bind_inv in H. destruct H as (p & k & Hp & H).
    injection H as <- <-. exists p. split; [reflexivity|].
    unfold deserializeMilestonePayload in Hp. invert_reads Hp.
    injection Hp as <- <-. split; reflexivity. }
  destruct (Z.eqb_spec t INDEXATION_PAYLOAD_TYPE) as [->|].
  { apply bind_inv in H. destruct H as (p & k & Hp & H).
    injection H as <- <-. exists p. split; [reflexivity|].
    unfold deserializeIndexationPayload in Hp. invert_reads Hp.
    injection Hp as <- <-. split; reflexivity. }
  destruct (Z.eqb_spec t RECEIPT_PAYLOAD_TYPE) as [->|].
  { apply bind_inv in H. destruct H as (p & k & Hp & H).
    injection H as <- <-. exists p. split; [reflexivity|].
    unfold deserializeReceiptPayload in Hp. invert_reads Hp.
    injection Hp as <- <-. split; reflexivity. }
  discriminate.
Qed.

Lemma deserializePayload_typed (s : list byte) (i : Z) (p : Payload) (j : Z) :
  deserializePayload s i = (Ok (Some p), j) -> is_typed p = true.
Proof.
  unfold deserializePayload. cbn [deserializePayloadFuel].
  rewrite deserializePayloadBody_cases. cbv zeta.
  repeat match goal with
    | |- (if ?c then _ else _) = _ -> _ => destruct c
    end; try discriminate.
  intro H. apply bind_inv in H. destruct H as (t & k & _ & H).
  apply dispatch_kind in H. destruct H as (q & E & _ & Hq).
  injection E as ->. exact Hq.
Qed.

Lemma rewrite_tag_layout (t : Z) (a b rest : list byte) :
  List.length a = 4%nat -> List.length b = 4%nat ->
  rewrite_tag t (a ++ b ++ rest) = a ++ le_bytes 4 t ++ rest.
Proof.
  intros Ha Hb. unfold rewrite_tag.
  rewrite <- Ha at 1. rewrite firstn_app, Nat.sub_diag, firstn_all, firstn_O.
  rewrite app_nil_r. f_equal. f_equal.
  rewrite app_assoc.
  replace 8%nat with (List.length (a ++ b)) by (rewrite length_app; lia).
  rewrite skipn_app, skipn_all, Nat.sub_diag. reflexivity.
Qed.

(** C4, as amended.  For every valid encoded transaction payload whose outer
    type tag is rewritten to another value [t]: the variant decoder chosen
    by [t] re-reads the rewritten tag, so its tag check passes; decode is the
    dispatch on [t] over the transaction's bytes; when [t] is none of the
    four known tags decode fails with an unknown-payload-type error; and
    whenever decode succeeds it returns a value of the kind [t], not the
    transaction. *)
Theorem rewritten_tag_dispatch (essence : TransactionEssence)
  (unlockBlocks : UnlockBlocks) (t : Z) :
  let V := Some (TransactionPayload essence unlockBlocks) in
  valid V = true ->
  0 <= t < 2 ^ 32 ->
  t <> TRANSACTION_PAYLOAD_TYPE ->
  let bytes := rewrite_tag t (envelope_bytes V) in
  encodePayload V = Ok (envelope_bytes V)
  /\ (forall name, ReadStream.readUInt32 name true bytes 4 = (Ok t, 8))
  /\ deserializePayload bytes 0 = dispatch deserializePayload t bytes 4
  /\ (t <> MILESTONE_PAYLOAD_TYPE -> t <> INDEXATION_PAYLOAD_TYPE ->
      t <> RECEIPT_PAYLOAD_TYPE ->
      deserializePayload bytes 0 = (Err (UnrecognizedPayloadType t), 4)
      /\ error_kind (UnrecognizedPayloadType t) = UnknownPayloadType)
  /\ (forall o j, deserializePayload bytes 0 = (Ok o, j) ->
      exists p, o = Some p /\ payload_type p = t).
Proof.
  intros V HV Ht Hne bytes.
  split; [now apply encodePayload_valid|].
  pose proof (valid_body_size V HV) as Hs.
  assert (Hmin : 8 <= len (body_bytes V)).
  { cbn [valid V valid_payload] in HV. repeat rewrite andb_true_iff in HV.
    destruct HV as [_ HV]. apply in_range_spec in HV. revert HV. sizes.
    unfold V. cbn [body_bytes]. lia. }
  assert (Eb : bytes = le_bytes 4 (len (body_bytes V)) ++ le_bytes 4 t
                       ++ essence_bytes essence
                       ++ unlockBlocks_bytes unlockBlocks).
  { unfold bytes, envelope_bytes, V. cbn [body_bytes variant_bytes].
    apply rewrite_tag_layout; apply length_le_bytes. }
  assert (Hl : len bytes = 4 + len (body_bytes V)).
  { rewrite Eb. unfold V. cbn [body_bytes variant_bytes].
    rewrite !len_app, !len_le_bytes. lia. }
  assert (Hat : bytes_at bytes 0 bytes) by apply bytes_at_whole.
  rewrite Eb in Hat at 2.
  apply bytes_at_app in Hat. destruct Hat as [Hlen Hat].
  apply bytes_at_app in Hat. destruct Hat as [Htag _].
  rewrite len_le_bytes in Htag. change (0 + Z.of_nat 4) with 4 in Htag.
  assert (Hpeek : forall (name : string) (moveIndex : bool),
             ReadStream.readUInt32 name moveIndex bytes 4
             = (Ok t, if moveIndex then 8 else 4)).
  { intros name moveIndex.
    apply (readUInt_at 4 name moveIndex); [exact Htag|].
    change (Z.of_nat 4) with 4. lia. }
  assert (Hd : deserializePayload bytes 0 = dispatch deserializePayload t bytes 4).
  { rewrite deserializePayload_cases by (apply merkle_nonneg || lia).
    rewrite Hl, !Z.add_0_l.
    pose proof (slice_bytes_at _ _ _ Hlen) as E.
    rewrite len_le_bytes in E. change (Z.of_nat 4) with 4 in E. rewrite E.
    rewrite le_value_small by (change (Z.of_nat 4) with 4; lia).
    cbv zeta.
    destruct (Z.leb_spec 4 (4 + len (body_bytes V))); [|lia].
    destruct (Z.leb_spec (4 + len (body_bytes V)) (4 + len (body_bytes V)));
      [|lia].
    destruct (Z.ltb_spec 0 (len (body_bytes V))); [|lia].
    now rewrite (bind_Ok _ _ _ _ _ _ (Hpeek "payload.type"%string false)). }
  split; [intro name; apply Hpeek|].
  split; [exact Hd|]. split.
  - intros H1 H2 H3. split; [|reflexivity]. rewrite Hd. unfold dispatch.
    destruct (Z.eqb_spec t TRANSACTION_PAYLOAD_TYPE); [contradiction|].
    destruct (Z.eqb_spec t MILESTONE_PAYLOAD_TYPE); [contradiction|].
    destruct (Z.eqb_spec t INDEXATION_PAYLOAD_TYPE); [contradiction|].
    destruct (Z.eqb_spec t RECEIPT_PAYLOAD_TYPE); [contradiction|].
    reflexivity.
  - intros o j H. rewrite Hd in H. apply dispatch_kind in H.
    destruct H as (p & E & Hp & _). exists p. split; assumption.
Qed.

(** C5.  For every input: if [deserializeMilestonePayload] succeeds, the
    embedded payload it decoded through the recursive envelope call, placed
    between the public keys and the signature count, is absent or a receipt
    payload; and when the reads up to the embedded payload succeed and the
    embedded envelope decodes to a payload of any other kind, the milestone
    decoder fails with the invalid-nested-payload-kind error. *)
Theorem milestone_embedded_receipt_only (s : list byte) (i : Z) :
  (forall m j,
      deserializeMilestonePayload deserializePayload s i = (Ok m, j) ->
      exists index timestamp p1 p2 proof keys receipt sigs,
        m = MilestonePayload index timestamp p1 p2 proof keys receipt sigs
        /\ (receipt = None
            \/ exists migratedAt funds,
                 receipt = Some (ReceiptPayload migratedAt funds)))
  /\ (forall h j1 p j2,
        milestone_head s i = (Ok h, j1) ->
        deserializePayload s j1 = (Ok (Some p), j2) ->
        payload_type p <> RECEIPT_PAYLOAD_TYPE ->
        deserializeMilestonePayload deserializePayload s i
        = (Err EmbeddedNotReceipt, j2)
        /\ error_kind EmbeddedNotReceipt = InvalidNestedPayloadKind).
Proof.
  split.
  - intros m j H. rewrite deserializeMilestonePayload_split in H.
    apply bind_inv in H. destruct H as (h & j1 & _ & H).
    apply bind_inv in H. destruct H as (receipt & j2 & Hr & H).
    destruct h as [[[[[index timestamp] p1] p2] proof] keys].
    unfold milestone_tail in H.
    destruct receipt as [r|].
    + destruct (Z.eqb_spec (payload_type r) RECEIPT_PAYLOAD_TYPE) as [Et|];
        cbn [negb] in H; [|discriminate].
      apply bind_inv in H. destruct H as (n & j3 & _ & H).
      apply bind_inv in H. destruct H as (sigs & j4 & _ & H).
      injection H as <- <-.
      exists index, (Number_of_BigInt timestamp), p1, p2, proof, keys,
        (Some r), sigs.
      split; [reflexivity|]. right.
      apply deserializePayload_typed in Hr.
      destruct r; try discriminate. now eexists _, _.
    + apply bind_inv in H. destruct H as (n & j3 & _ & H).
      apply bind_inv in H. destruct H as (sigs & j4 & _ & H).
      injection H as <- <-.
      exists index, (Number_of_BigInt timestamp), p1, p2, proof, keys,
        None, sigs.
      split; [reflexivity|]. now left.
  - intros h j1 p j2 Hh Hp Ht. split; [|reflexivity].
    rewrite deserializeMilestonePayload_split.
    rewrite (bind_Ok _ _ _ _ _ _ Hh), (bind_Ok _ _ _ _ _ _ Hp).
    destruct h as [[[[[index timestamp] p1] p2] proof] keys].
    unfold milestone_tail.
    destruct (Z.eqb_spec (payload_type p) RECEIPT_PAYLOAD_TYPE);
      [contradiction|reflexivity].
Qed.

Lemma writes_indexation (type : Z) (index : string) (data : option (list byte)) :
  MIN_INDEXATION_KEY_LENGTH <= utf16_length index
    <= MAX_INDEXATION_KEY_LENGTH ->
  writes (serializeIndexationPayload type index data)
    (indexation_bytes type index data).
Proof.
  intro H. unfold serializeIndexationPayload, indexation_bytes.
  destruct (Z.ltb_spec (utf16_length index)
              MIN_INDEXATION_KEY_LENGTH); [lia|].
  destruct (Z.ltb_spec MAX_INDEXATION_KEY_LENGTH
              (utf16_length index)); [lia|].
  apply writes_bind; [apply writes_writeUInt|].
  apply writes_bind; [apply writes_writeString|].
  destruct data as [[|b bytes]|].
  - rewrite app_nil_r. apply (writes_writeUInt 4).
  - apply writes_bind; [apply writes_writeUInt|].
    now apply writes_writeFixedHex.
  - rewrite app_nil_r. apply (writes_writeUInt 4).
Qed.


(** C7, as amended.  Encoding the indexation payload with index "A" and
    absent data through the envelope produces exactly 15 bytes: the 4-byte
    outer length 11, the 4-byte indexation tag, the 2-byte string length 1,
    the byte "A" and the 4-byte data length 0; [deserializePayload] on these
    bytes consumes all 15 and returns the payload with index "A" and empty
    data. *)
Theorem indexation_scenario :
  encodePayload (Some (IndexationPayload "A" None)) = Ok scenario_bytes
  /\ scenario_bytes
     = le_bytes 4 11 ++ le_bytes 4 INDEXATION_PAYLOAD_TYPE ++ le_bytes 2 1
       ++ list_byte_of_string "A" ++ le_bytes 4 0
  /\ 11 = 4 + 2 + 1 + 4
  /\ deserializePayload scenario_bytes 0
     = (Ok (Some (IndexationPayload "A" (Some []))), 15).
Proof.
  split; [reflexivity|]. split; [reflexivity|]. split; reflexivity.
Qed.

(** C8.  For a buffer whose body bytes are fixed, any two declared outer
    lengths [L1] and [L2], both nonzero and both at most the byte count
    remaining after the length field, make [deserializePayload] return the
    same result and stop at the same read position: the declared length
    only takes part in the bound check and is never compared with what the
    variant decoder consumes. *)
Theorem declared_length_only_bounds (pre body : list byte) (L1 L2 : Z) :
  0 < L1 <= len body -> 0 < L2 <= len body ->
  L1 < 2 ^ 32 -> L2 < 2 ^ 32 ->
  deserializePayload (pre ++ le_bytes 4 L1 ++ body) (len pre)
  = deserializePayload (pre ++ le_bytes 4 L2 ++ body) (len pre).
Proof.
  intros H1 H2 B1 B2.
  assert (Hcase : forall Ln fuel,
             0 < Ln <= len body -> Ln < 2 ^ 32 ->
             deserializePayloadBody (deserializePayloadFuel fuel)
               (pre ++ le_bytes 4 Ln ++ body) (len pre)
             = ReadStream.bind (ReadStream.readUInt32 "payload.type" false)
                 (dispatch (deserializePayloadFuel fuel))
                 (pre ++ le_bytes 4 Ln ++ body) (len pre + 4)).
  { intros Ln fuel Hn Bn. rewrite deserializePayloadBody_cases.
    assert (Hat : bytes_at (pre ++ le_bytes 4 Ln ++ body) (len pre)
                    (le_bytes 4 Ln)) by (now exists pre, body).
    pose proof (slice_bytes_at _ _ _ Hat) as E.
    rewrite len_le_bytes in E. change (Z.of_nat 4) with 4 in E. rewrite E.
    rewrite le_value_small by (change (Z.of_nat 4) with 4; lia).
    rewrite !len_app, len_le_bytes. change (Z.of_nat 4) with 4. cbv zeta.
    destruct (Z.leb_spec (len pre + 4) (len pre + (4 + len body))); [|lia].
    destruct (Z.leb_spec (len pre + 4 + Ln) (len pre + (4 + len body))); [|lia].
    destruct (Z.ltb_spec 0 Ln); [|lia]. reflexivity. }
  unfold deserializePayload.
  assert (El : List.length (pre ++ le_bytes 4 L1 ++ body)
               = List.length (pre ++ le_bytes 4 L2 ++ body)).
  { rewrite !length_app, !length_le_bytes. reflexivity. }
  rewrite El. cbn [deserializePayloadFuel].
  rewrite !Hcase by assumption.
  assert (T : tame (ReadStream.bind (ReadStream.readUInt32 "payload.type" false)
                      (dispatch (deserializePayloadFuel
                                   (List.length (pre ++ le_bytes 4 L2 ++ body)))))).
  { apply tame_bind.
    - apply tame_readUInt. sizes. lia.
    - intro t. apply tame_dispatch. apply tame_fuel. }
  apply (proj1 T).
  - pose proof (len_nonneg pre). lia.
  - unfold len. now rewrite El.
  - replace (Z.to_nat (len pre + 4))
      with (List.length (pre ++ le_bytes 4 L1)) at 1
      by (rewrite length_app, length_le_bytes; unfold len; lia).
    replace (Z.to_nat (len pre + 4))
      with (List.length (pre ++ le_bytes 4 L2))
      by (rewrite length_app, length_le_bytes; unfold len; lia).
    rewrite (app_assoc pre (le_bytes 4 L1)), (app_assoc pre (le_bytes 4 L2)).
    now rewrite !skipn_exact.
Qed.

(** C9.  [serializePayload] writes the 4-byte placeholder before it looks at
    the payload.  An object whose type is none of the four tags makes the
    call fail with the unrecognized-type error, and an indexation payload
    whose index length is below 1 or above 64 makes it fail with the
    index-length error raised by the variant codec; in both cases the writer
    is left exactly as the placeholder write left it, and an indexation
    payload makes the call fail in no other way.  Whenever the call fails,
    for any object, the writer has been changed: its position has advanced
    by at least 4 and the placeholder is in its buffer at the starting
    position. *)
Theorem failed_encode_mutates_writer (ws : WriteStream) :
  wf_ws ws ->
  (forall type,
      type <> TRANSACTION_PAYLOAD_TYPE -> type <> MILESTONE_PAYLOAD_TYPE ->
      type <> INDEXATION_PAYLOAD_TYPE -> type <> RECEIPT_PAYLOAD_TYPE ->
      serializePayload (Some (UntypedPayload type)) ws
      = (Err (UnrecognizedTransactionType type), after_placeholder ws))
  /\ (forall index data,
        utf16_length index < MIN_INDEXATION_KEY_LENGTH ->
        serializePayload (Some (IndexationPayload index data)) ws
        = (Err (IndexKeyBelowMinimum (utf16_length index)
                  MIN_INDEXATION_KEY_LENGTH),
           after_placeholder ws))
  /\ (forall index data,
        MAX_INDEXATION_KEY_LENGTH < utf16_length index ->
        serializePayload (Some (IndexationPayload index data)) ws
        = (Err (IndexKeyExceedsMaximum (utf16_length index)
                  MAX_INDEXATION_KEY_LENGTH),
           after_placeholder ws))
  /\ (forall index data e ws',
        serializePayload (Some (IndexationPayload index data)) ws = (Err e, ws') ->
        error_kind e = IndexLengthOutOfRange /\ ws' = after_placeholder ws)
  /\ (writeIndex (after_placeholder ws) = writeIndex ws + 4
      /\ bytes_at (storage (after_placeholder ws)) (writeIndex ws) (le_bytes 4 0)
      /\ after_placeholder ws <> ws)
  /\ (forall object e ws',
        serializePayload object ws = (Err e, ws') ->
        writeIndex ws + 4 <= writeIndex ws'
        /\ bytes_at (storage ws') (writeIndex ws) (le_bytes 4 0)
        /\ ws' <> ws).
Proof.
  intro Hw.
  assert (Hrun : forall index data,
             serializePayload (Some (IndexationPayload index data)) ws
             = match serializeIndexationPayload INDEXATION_PAYLOAD_TYPE index
                       data (after_placeholder ws) with
               | (Ok _, ws2) => (Ok tt, back_patch (writeIndex ws) ws2)
               | (Err e, ws2) => (Err e, ws2)
               end).
  { intros index data. unfold serializePayload.
    now rewrite serializePayloadBody_run. }
  split; [|split; [|split; [|split; [|split]]]].
  - intros type _ _ _ _. unfold serializePayload.
    now rewrite serializePayloadBody_run.
  - intros index data H. rewrite Hrun. unfold serializeIndexationPayload.
    destruct (Z.ltb_spec (utf16_length index) MIN_INDEXATION_KEY_LENGTH);
      [reflexivity | lia].
  - intros index data H. rewrite Hrun. unfold serializeIndexationPayload.
    destruct (Z.ltb_spec (utf16_length index) MIN_INDEXATION_KEY_LENGTH);
      [unfold MIN_INDEXATION_KEY_LENGTH, MAX_INDEXATION_KEY_LENGTH in *; lia|].
    destruct (Z.ltb_spec MAX_INDEXATION_KEY_LENGTH (utf16_length index));
      [reflexivity | lia].
  - intros index data e ws' H. rewrite Hrun in H.
    unfold serializeIndexationPayload in H.
    destruct (utf16_length index <? MIN_INDEXATION_KEY_LENGTH).
    { unfold WriteStream.throw in H. injection H as <- <-. now split. }
    destruct (MAX_INDEXATION_KEY_LENGTH <? utf16_length index).
    { unfold WriteStream.throw in H. injection H as <- <-. now split. }
    exfalso. revert H.
    unfold WriteStream.bind, WriteStream.writeUInt32, WriteStream.writeUInt,
      WriteStream.writeString, WriteStream.writeUInt16, WriteStream.writeUInt,
      WriteStream.bind, WriteStream.writeBytes.
    destruct data as [[|b bytes]|]; try discriminate.
    unfold WriteStream.writeFixedHex. rewrite Z.eqb_refl. discriminate.
  - split; [apply writeIndex_after_placeholder|].
    split; [now apply placeholder_at|].
    intro E. apply (f_equal writeIndex) in E.
    rewrite writeIndex_after_placeholder in E. lia.
  - intros object e ws' H. unfold serializePayload in H.
    rewrite serializePayloadBody_run in H.
    pose proof (framing_envelope_body object _ (wf_after_placeholder ws Hw)) as F.
    destruct (envelope_body serializeVariant object (after_placeholder ws))
      as [[u|e'] ws2] eqn:Eb; [discriminate|].
    injection H as -> ->. cbn [snd] in F. destruct F as (Hw2 & Hi & Ef).
    rewrite writeIndex_after_placeholder in Hi, Ef.
    assert (Hadv : writeIndex ws + 4 <= writeIndex ws') by exact Hi.
    split; [exact Hadv|]. split.
    + apply (bytes_at_prefix (storage (after_placeholder ws)) _ _ _
               (Z.to_nat (writeIndex ws + 4))).
      * now apply placeholder_at.
      * rewrite len_le_bytes. lia.
      * exact Ef.
    + intro E. rewrite E in Hadv. lia.
Qed.

Lemma len_slice (s : list byte) (i n : Z) :
  0 <= i -> 0 <= n -> i + n <= len s -> len (ReadStream.slice s i n) = n.
Proof.
  intros Hi Hn Hb. unfold ReadStream.slice, len in *.
  rewrite length_firstn, length_skipn. lia.
Qed.

Lemma length_string_of_list_byte (bytes : list byte) :
  String.length (string_of_list_byte bytes) = List.length bytes.
Proof.
  rewrite <- length_list_byte_of_string.
  now rewrite list_byte_of_string_of_list_byte.
Qed.

(** What a successful indexation decode consumed: the tag, the 2-byte
    string length, the index, the 4-byte data length, the data. *)
Lemma deserializeIndexationPayload_consumed (s : list byte) (i : Z)
  (p : Payload) (j : Z) :
  0 <= i ->
  deserializeIndexationPayload s i = (Ok p, j) ->
  exists index data,
    p = IndexationPayload index (Some data)
    /\ j = i + 4 + 2 + Z.of_nat (String.length index) + 4 + len data
    /\ j <= len s.
Proof.
  intros Hi H. unfold deserializeIndexationPayload in H.
  apply bind_inv in H. destruct H as (b & i1 & Hb & H).
  rewrite hasRemaining_eq in Hb. injection Hb as <- <-.
  destruct (negb (i + MIN_INDEXATION_PAYLOAD_LENGTH <=? len s)).
  { apply bind_inv in H. destruct H as (l & i1 & _ & H). discriminate H. }
  apply bind_inv in H. destruct H as (t & i2 & Ht & H).
  apply readUInt_inv in Ht. destruct Ht as (_ & -> & _).
  destruct (negb (t =? INDEXATION_PAYLOAD_TYPE)); [discriminate H|].
  apply bind_inv in H. destruct H as (index & i3 & Hs & H).
  unfold ReadStream.readString in Hs.
  apply bind_inv in Hs. destruct Hs as (n & i3' & Hn & Hs).
  pose proof (readUInt_nonneg _ _ _ _ _ _ _ Hn) as Hn0.
  apply readUInt_inv in Hn. destruct Hn as (_ & -> & _).
  apply bind_inv in Hs. destruct Hs as (bytes & i3'' & Hbytes & Hs).
  apply readFixedHex_inv in Hbytes. destruct Hbytes as (Hb1 & -> & ->).
  injection Hs as <- <-.
  apply bind_inv in H. destruct H as (dl & i4 & Hdl & H).
  pose proof (readUInt_nonneg _ _ _ _ _ _ _ Hdl) as Hdl0.
  apply readUInt_inv in Hdl. destruct Hdl as (_ & -> & _).
  apply bind_inv in H. destruct H as (data & i5 & Hdata & H).
  apply readFixedHex_inv in Hdata. destruct Hdata as (Hb2 & -> & ->).
  injection H as <- <-. sizes.
  eexists _, _. split; [reflexivity|].
  rewrite length_string_of_list_byte.
  fold (len (ReadStream.slice s (i + 4 + 2) n)).
  rewrite !len_slice by lia. split; lia.
Qed.

(** C10.  With [STRING_LENGTH = 2], [MIN_INDEXATION_PAYLOAD_LENGTH] is 9:
    the data-length field is counted as [STRING_LENGTH], not 4.  The decoder
    nevertheless reads the data length as a 4-byte integer, so a successful
    decode consumes at least 10 bytes, and the encoder writes at least 11
    bytes for any index it accepts.  Hence an input with 9 or 10 remaining
    bytes passes the minimum-size precheck, and when it fails it fails in
    the tag check or in a field read that follows; with 9 bytes it always
    fails. *)
Theorem indexation_minimum_undercounts :
  STRING_LENGTH = 2
  /\ MIN_INDEXATION_PAYLOAD_LENGTH
     = TYPE_LENGTH + STRING_LENGTH + 1 + STRING_LENGTH
  /\ MIN_INDEXATION_PAYLOAD_LENGTH = 9
  /\ (forall type index data,
        1 <= utf16_length index <= 64 ->
        writes (serializeIndexationPayload type index data)
          (indexation_bytes type index data)
        /\ 11 <= len (indexation_bytes type index data))
  /\ (forall s i p j,
        0 <= i ->
        deserializeIndexationPayload s i = (Ok p, j) ->
        exists index data,
          p = IndexationPayload index (Some data)
          /\ j = i + 4 + 2 + Z.of_nat (String.length index) + 4 + len data
          /\ i + 10 <= j <= len s)
  /\ (forall s i,
        0 <= i -> 9 <= len s - i <= 10 ->
        (forall e j,
            deserializeIndexationPayload s i = (Err e, j) ->
            (exists t, e = TypeMismatch CIndexation t)
            \/ (exists name n u, e = StreamExceeds name n u))
        /\ (len s - i = 9 ->
            is_ok (fst (deserializeIndexationPayload s i)) = false)).
Proof.
  split; [reflexivity|]. split; [reflexivity|]. split; [reflexivity|].
  split; [|split].
  - intros type index data H. split; [now apply writes_indexation|].
    unfold indexation_bytes. rewrite !len_app, !len_le_bytes.
    unfold len at 1. rewrite length_list_byte_of_string.
    pose proof (utf16_length_bytes index).
    pose proof (len_nonneg match data with Some b => b | None => [] end). lia.
  - intros s i p j Hi H.
    destruct (deserializeIndexationPayload_consumed s i p j Hi H)
      as (index & data & -> & -> & Hj).
    exists index, data. split; [reflexivity|]. split; [reflexivity|].
    pose proof (len_nonneg data). lia.
  - intros s i Hi Hr. split.
    + intros e j. unfold deserializeIndexationPayload, ReadStream.readString.
      unfold ReadStream.bind, ReadStream.hasRemaining, ReadStream.length,
        ReadStream.throw, ReadStream.ret, ReadStream.readUInt32,
        ReadStream.readUInt16, ReadStream.readUInt, ReadStream.readFixedHex.
      sizes.
      destruct (Z.leb_spec (i + (4 + 2 + 1 + 2)) (len s)) as [Hpre|Hpre];
        [|lia].
      cbn [negb].
      repeat match goal with
        | |- context [if ?c then _ else _] => destruct c
        end; cbn [negb]; intro Herr; try discriminate Herr;
        injection Herr as <- <-; eauto.
    + intro H9.
      destruct (deserializeIndexationPayload s i) as [[p|e] j] eqn:E;
        [|reflexivity].
      destruct (deserializeIndexationPayload_consumed s i p j Hi E)
        as (index & data & _ & -> & Hj).
      pose proof (len_nonneg data). lia.
Qed.

End Claims.

(** * The claims on concrete values *)

Section Concrete.

#[local] Existing Instance Reference.collaborators.
#[local] Existing Instance Reference.layout.
#[local] Existing Instance Reference_laws.

Lemma roundtrip_up_to_absent_data_witness :
  exists bytes,
    encodePayload smallest_milestone = Ok bytes
    /\ deserializePayload bytes 0
       = (Ok (decoded_form smallest_milestone), len bytes)
    /\ ((forall index, smallest_milestone <> Some (IndexationPayload index None)) ->
        decodePayload bytes = Ok smallest_milestone).
Proof.
  apply (roundtrip_up_to_absent_data smallest_milestone). reflexivity.
Defined.

(** C1 as stated fails: the valid payload [indexation_A] is encoded, and
    decoding the bytes returns a different value (empty data). *)
Lemma roundtrip_absent_data_counterexample :
  valid indexation_A = true
  /\ exists bytes,
       encodePayload indexation_A = Ok bytes
       /\ decodePayload bytes <> Ok indexation_A.
Proof.
  split; [reflexivity|].
  exists (envelope_bytes indexation_A). split; [reflexivity|].
  intro H.
  assert (E : decodePayload (envelope_bytes indexation_A)
              = Ok (Some (IndexationPayload "A" (Some [])))) by reflexivity.
  rewrite E in H. discriminate H.
Qed.

Lemma length_field_counts_body_witness :
  let ws := WriteStream.empty in
  let ws' := snd (serializePayload indexation_A ws) in
  ReadStream.readUInt32 "payload.length" false (storage ws') 0 = (Ok 11, 0)
  /\ writeIndex ws' = 15.
Proof.
  intros ws ws'.
  assert (Hw : wf_ws ws) by (unfold wf_ws; cbn; lia).
  assert (Hrun : serializePayload indexation_A ws = (Ok tt, ws'))
    by reflexivity.
  assert (Hlt : writeIndex (snd (envelope_body serializeVariant indexation_A
                                   (after_placeholder ws)))
                - (writeIndex ws + 4) < 2 ^ 32)
    by reflexivity.
  destruct (length_field_counts_body indexation_A ws ws' Hw Hrun Hlt)
    as (Hfield & _ & Hend & _).
  split; [exact Hfield | exact Hend].
Defined.

Lemma truncated_prefix_rejected_witness :
  decodePayload (firstn 9 (envelope_bytes indexation_A))
  = Err (PayloadLengthExceeds 11 5).
Proof.
  assert (HV : valid indexation_A = true) by reflexivity.
  assert (Hk : 0 <= 9 < len (envelope_bytes indexation_A))
    by (split; [discriminate | reflexivity]).
  exact (proj1 (proj2 (truncated_prefix_rejected indexation_A 9 HV Hk))).
Defined.

Lemma rewritten_tag_dispatch_witness :
  let bytes := rewrite_tag 7 (envelope_bytes zero_transaction) in
  deserializePayload bytes 0 = (Err (UnrecognizedPayloadType 7), 4).
Proof.
  assert (HV : valid zero_transaction = true) by reflexivity.
  assert (Ht : 0 <= 7 < 2 ^ 32) by lia.
  assert (Hne : 7 <> TRANSACTION_PAYLOAD_TYPE) by discriminate.
  destruct (rewritten_tag_dispatch (X := Reference.collaborators)
              zero_essence [] 7 HV Ht Hne)
    as (_ & _ & _ & Hunknown & _).
  apply Hunknown; discriminate.
Defined.

(** C4 as stated fails: the encoded valid transaction [zero_transaction],
    with its outer type tag rewritten to the milestone tag, decodes without
    error to a milestone payload. *)
Lemma rewritten_tag_counterexample :
  valid zero_transaction = true
  /\ encodePayload zero_transaction = Ok (envelope_bytes zero_transaction)
  /\ decodePayload
       (rewrite_tag MILESTONE_PAYLOAD_TYPE (envelope_bytes zero_transaction))
     = Ok (Some (MilestonePayload 51968 0 digest32 digest32 digest32
                   [] None [])).
Proof.
  split; [reflexivity|].
  split; reflexivity.
Qed.

Lemma milestone_embedded_receipt_only_witness :
  deserializeMilestonePayload deserializePayload
    milestone_with_transaction_bytes 4
  = (Err EmbeddedNotReceipt, 164).
Proof.
  apply (proj2 (milestone_embedded_receipt_only (X := Reference.collaborators)
                  milestone_with_transaction_bytes 4)
           (7, 1600000000, digest32, digest32, digest32, [digest32]) 149
           small_transaction 164).
  - reflexivity.
  - reflexivity.
  - discriminate.
Defined.


(** C7 as stated fails on its last clause: decoding the 15 bytes does not
    reproduce the original value, whose data is absent. *)
Lemma indexation_scenario_counterexample :
  encodePayload indexation_A = Ok scenario_bytes
  /\ decodePayload scenario_bytes <> Ok indexation_A.
Proof.
  split; [reflexivity|].
  intro H.
  assert (E : decodePayload scenario_bytes
              = Ok (Some (IndexationPayload "A" (Some [])))) by reflexivity.
  rewrite E in H. discriminate H.
Qed.

Lemma declared_length_only_bounds_witness :
  deserializePayload ([] ++ le_bytes 4 11 ++ scenario_body) (len (@nil byte))
  = deserializePayload ([] ++ le_bytes 4 3 ++ scenario_body) (len (@nil byte)).
Proof.
  apply (declared_length_only_bounds (X := Reference.collaborators)
           [] scenario_body 11 3).
  - split; [reflexivity | discriminate].
  - split; [reflexivity | discriminate].
  - reflexivity.
  - reflexivity.
Defined.

Lemma failed_encode_mutates_writer_witness :
  serializePayload (Some (UntypedPayload 9)) WriteStream.empty
  = (Err (UnrecognizedTransactionType 9), after_placeholder WriteStream.empty)
  /\ serializePayload (Some (IndexationPayload EmptyString None)) WriteStream.empty
     = (Err (IndexKeyBelowMinimum 0 1), after_placeholder WriteStream.empty)
  /\ serializePayload (Some (IndexationPayload (index_of_length 65) None))
       WriteStream.empty
     = (Err (IndexKeyExceedsMaximum 65 64), after_placeholder WriteStream.empty)
  /\ storage (after_placeholder WriteStream.empty) = le_bytes 4 0
  /\ writeIndex (after_placeholder WriteStream.empty) = 4.
Proof.
  assert (Hw : wf_ws WriteStream.empty) by (unfold wf_ws; cbn; lia).
  destruct (failed_encode_mutates_writer (X := Reference.collaborators)
              WriteStream.empty Hw) as (Htype & Hlow & Hhigh & _).
  split; [apply (Htype 9); discriminate|].
  split; [apply (Hlow EmptyString None); reflexivity|].
  split; [apply (Hhigh (index_of_length 65) None); reflexivity|].
  split; reflexivity.
Defined.

Lemma indexation_minimum_undercounts_witness :
  MIN_INDEXATION_PAYLOAD_LENGTH = 9
  /\ is_ok (fst (deserializeIndexationPayload nine_bytes 0)) = false
  /\ deserializeIndexationPayload nine_bytes 0
     = (Err (StreamExceeds "payloadIndexation.dataLength" 4 3), 6)
  /\ deserializeIndexationPayload ten_bytes 0
     = (Ok (IndexationPayload "" (Some [])), 10).
Proof.
  destruct (indexation_minimum_undercounts (X := Reference.collaborators))
    as (_ & _ & Hmin & _ & _ & Hshort).
  split; [exact Hmin|]. split.
  - apply (Hshort nine_bytes 0); [lia | split; discriminate | reflexivity].
  - split; reflexivity.
Defined.

End Concrete.

(** * Further properties of the codec *)

Section Further.

Context {X : Collaborators} {Y : CollaboratorLayout X}
  {L : CollaboratorLaws X Y}.

Lemma encodePayload_writes (object : option Payload) (bytes : list byte) :
  writes (serializePayload object) bytes -> encodePayload object = Ok bytes.
Proof.
  intro W. unfold encodePayload.
  rewrite (W WriteStream.empty) by (unfold wf_ws; cbn; lia).
  unfold WriteStream.writeBytes, WriteStream.finalBytes. cbn [storage].
  change (storage WriteStream.empty) with (@nil byte).
  change (writeIndex WriteStream.empty) with 0.
  now rewrite overwrite_nil.
Qed.

(** X1.  What a success of [deserializePayload] tells: it returns no payload
    exactly when four bytes remain and the declared length is zero, and
    then it has consumed the length field only, whatever follows; it
    returns a payload only when the declared length is positive and within
    the remaining bytes, and that payload is of one of the four kinds, the
    one whose tag follows the length field. *)
Theorem deserializePayload_outcome (s : list byte) (i : Z) :
  (forall j,
      deserializePayload s i = (Ok None, j) <->
      i + 4 <= len s /\ le_value (ReadStream.slice s i 4) = 0 /\ j = i + 4)
  /\ (forall p j,
        deserializePayload s i = (Ok (Some p), j) ->
        i + 4 <= len s
        /\ 0 < le_value (ReadStream.slice s i 4) <= len s - (i + 4)
        /\ payload_type p = le_value (ReadStream.slice s (i + 4) 4)
        /\ is_typed p = true).
Proof.
  unfold deserializePayload. cbn [deserializePayloadFuel].
  rewrite deserializePayloadBody_cases. cbv zeta.
  pose proof (le_value_range (ReadStream.slice s i 4)) as Hr.
  destruct (Z.leb_spec (i + 4) (len s)) as [H4|H4].
  2:{ split.
      - intro j. split; [discriminate | lia].
      - intros p j H. discriminate H. }
  destruct (Z.leb_spec (i + 4 + le_value (ReadStream.slice s i 4)) (len s))
    as [Hl|Hl].
  2:{ split.
      - intro j. split; [discriminate | lia].
      - intros p j H. discriminate H. }
  destruct (Z.ltb_spec 0 (le_value (ReadStream.slice s i 4))) as [Hp|Hp].
  - split.
    + intro j. split; [|lia]. intro H.
      apply bind_inv in H. destruct H as (t & k & _ & H).
      apply dispatch_kind in H. destruct H as (q & E & _). discriminate E.
    + intros p j H. apply bind_inv in H. destruct H as (t & k & Ht & H).
      apply readUInt_inv in Ht. destruct Ht as (_ & _ & ->).
      apply dispatch_kind in H. destruct H as (q & E & Hq & Hty).
      injection E as ->. repeat split; try assumption; lia.
  - split.
    + intro j. split.
      * intro H. injection H as <-. repeat split; lia.
      * intros (_ & _ & ->). reflexivity.
    + intros p j H. discriminate H.
Qed.

(** X2.  A valid payload is decoded in any surrounding: with any bytes
    before the read position and any bytes after the envelope,
    [deserializePayload] returns the payload (absent indexation data as
    empty data) and stops right after the envelope. *)
Theorem decode_in_context (V : option Payload) (pre suf : list byte) :
  valid V = true ->
  deserializePayload (pre ++ envelope_bytes V ++ suf) (len pre)
  = (Ok (decoded_form V), len pre + len (envelope_bytes V)).
Proof.
  intro HV. apply reads_payload; [assumption|]. now exists pre, suf.
Qed.

(** X3.  Two valid payloads serialized one after the other, from any
    well-formed writer, are read back one after the other: both writes
    succeed, the first read starts where the writer stood and returns the
    first payload, the second read starts where the first stopped, returns
    the second payload and stops where the writer stopped. *)
Theorem payloads_in_sequence (V1 V2 : option Payload) (ws : WriteStream) :
  valid V1 = true -> valid V2 = true -> wf_ws ws ->
  let run := WriteStream.bind (serializePayload V1)
               (fun _ => serializePayload V2) ws in
  let middle := writeIndex ws + len (envelope_bytes V1) in
  fst run = Ok tt
  /\ deserializePayload (storage (snd run)) (writeIndex ws)
     = (Ok (decoded_form V1), middle)
  /\ deserializePayload (storage (snd run)) middle
     = (Ok (decoded_form V2), writeIndex (snd run)).
Proof.
  intros H1 H2 Hw run middle.
  assert (W : writes (WriteStream.bind (serializePayload V1)
                        (fun _ => serializePayload V2))
                (envelope_bytes V1 ++ envelope_bytes V2)).
  { apply writes_bind; now apply writes_payload. }
  unfold run. rewrite (W ws Hw). cbn [fst snd WriteStream.writeBytes storage
                                        writeIndex].
  split; [reflexivity|].
  pose proof (bytes_at_overwrite (storage ws) (writeIndex ws)
                (envelope_bytes V1 ++ envelope_bytes V2) Hw) as B.
  apply bytes_at_app in B. destruct B as [B1 B2].
  split.
  - now apply reads_payload.
  - unfold middle. rewrite (reads_payload V2 _ _ H2 B2).
    rewrite len_app. f_equal. lia.
Qed.

Lemma envelope_bytes_decoded_form (V : option Payload) :
  envelope_bytes (decoded_form V) = envelope_bytes V.
Proof. destruct V as [[| | ? [?|] | |]|]; reflexivity. Qed.

(** X4.  The encoding tells valid payloads apart, up to absent and empty
    indexation data: two valid payloads have the same encoding exactly when
    they are equal once absent indexation data is read as empty. *)
Theorem encoding_injective (V1 V2 : option Payload) :
  valid V1 = true -> valid V2 = true ->
  (encodePayload V1 = encodePayload V2 <-> decoded_form V1 = decoded_form V2).
Proof.
  intros H1 H2. rewrite !encodePayload_valid by assumption. split; intro E.
  - assert (E' : envelope_bytes V1 = envelope_bytes V2) by congruence.
    pose proof (reads_payload V1 _ 0 H1 (bytes_at_whole _)) as R1.
    pose proof (reads_payload V2 _ 0 H2 (bytes_at_whole _)) as R2.
    rewrite E' in R1. rewrite R1 in R2. now injection R2.
  - rewrite <- (envelope_bytes_decoded_form V1), E.
    now rewrite envelope_bytes_decoded_form.
Qed.

Ltac run_reads :=
  unfold ReadStream.bind, ReadStream.hasRemaining, ReadStream.length,
    ReadStream.throw, ReadStream.ret, ReadStream.readUInt32,
    ReadStream.readByte, ReadStream.readUInt.

(** X5.  Each variant decoder called on its own: when fewer bytes remain
    than its minimum it fails without moving, and the error reports the size
    of the whole storage, not the count of remaining bytes; when enough
    remain and the first four bytes are not its own tag it fails with a type
    mismatch that reports the tag read, the tag being consumed. *)
Theorem variant_decoders_reject (self : Reader (option Payload))
  (s : list byte) (i : Z) :
  let tag := le_value (ReadStream.slice s i 4) in
  (len s < i + MIN_TRANSACTION_PAYLOAD_LENGTH ->
   deserializeTransactionPayload s i
   = (Err (DataTooShort CTransaction (len s) MIN_TRANSACTION_PAYLOAD_LENGTH), i))
  /\ (len s < i + MIN_MILESTONE_PAYLOAD_LENGTH ->
      deserializeMilestonePayload self s i
      = (Err (DataTooShort CMilestone (len s) MIN_MILESTONE_PAYLOAD_LENGTH), i))
  /\ (len s < i + MIN_INDEXATION_PAYLOAD_LENGTH ->
      deserializeIndexationPayload s i
      = (Err (DataTooShort CIndexation (len s) MIN_INDEXATION_PAYLOAD_LENGTH), i))
  /\ (len s < i + MIN_RECEIPT_PAYLOAD_LENGTH ->
      deserializeReceiptPayload s i
      = (Err (DataTooShort CReceipt (len s) MIN_RECEIPT_PAYLOAD_LENGTH), i))
  /\ (i + MIN_TRANSACTION_PAYLOAD_LENGTH <= len s ->
      tag <> TRANSACTION_PAYLOAD_TYPE ->
      deserializeTransactionPayload s i
      = (Err (TypeMismatch CTransaction tag), i + 4))
  /\ (i + MIN_MILESTONE_PAYLOAD_LENGTH <= len s ->
      tag <> MILESTONE_PAYLOAD_TYPE ->
      deserializeMilestonePayload self s i
      = (Err (TypeMismatch CMilestone tag), i + 4))
  /\ (i + MIN_INDEXATION_PAYLOAD_LENGTH <= len s ->
      tag <> INDEXATION_PAYLOAD_TYPE ->
      deserializeIndexationPayload s i
      = (Err (TypeMismatch CIndexation tag), i + 4))
  /\ (i + MIN_RECEIPT_PAYLOAD_LENGTH <= len s -> i + 4 <= len s ->
      tag <> RECEIPT_PAYLOAD_TYPE ->
      deserializeReceiptPayload s i
      = (Err (TypeMismatch CReceipt tag), i + 4)).
Proof.
  intro tag. pose proof merkle_nonneg as Hm.
  repeat split.
  - intro H. unfold deserializeTransactionPayload. run_reads.
    destruct (Z.leb_spec (i + MIN_TRANSACTION_PAYLOAD_LENGTH) (len s));
      [lia | reflexivity].
  - intro H. unfold deserializeMilestonePayload. run_reads.
    destruct (Z.leb_spec (i + MIN_MILESTONE_PAYLOAD_LENGTH) (len s));
      [lia | reflexivity].
  - intro H. unfold deserializeIndexationPayload. run_reads.
    destruct (Z.leb_spec (i + MIN_INDEXATION_PAYLOAD_LENGTH) (len s));
      [lia | reflexivity].
  - intro H. unfold deserializeReceiptPayload. run_reads.
    destruct (Z.leb_spec (i + MIN_RECEIPT_PAYLOAD_LENGTH) (len s));
      [lia | reflexivity].
  - intros H Ht. unfold deserializeTransactionPayload. run_reads.
    destruct (Z.leb_spec (i + MIN_TRANSACTION_PAYLOAD_LENGTH) (len s)); [|lia].
    cbn [negb]. sizes.
    destruct (Z.leb_spec (i + 4) (len s)); [|lia]. fold tag.
    destruct (Z.eqb_spec tag TRANSACTION_PAYLOAD_TYPE); [contradiction|].
    reflexivity.
  - intros H Ht. unfold deserializeMilestonePayload. run_reads.
    destruct (Z.leb_spec (i + MIN_MILESTONE_PAYLOAD_LENGTH) (len s)); [|lia].
    cbn [negb]. sizes.
    destruct (Z.leb_spec (i + 4) (len s)); [|lia]. fold tag.
    destruct (Z.eqb_spec tag MILESTONE_PAYLOAD_TYPE); [contradiction|].
    reflexivity.
  - intros H Ht. unfold deserializeIndexationPayload. run_reads.
    destruct (Z.leb_spec (i + MIN_INDEXATION_PAYLOAD_LENGTH) (len s)); [|lia].
    cbn [negb]. sizes.
    destruct (Z.leb_spec (i + 4) (len s)); [|lia]. fold tag.
    destruct (Z.eqb_spec tag INDEXATION_PAYLOAD_TYPE); [contradiction|].
    reflexivity.
  - intros H H4 Ht. unfold deserializeReceiptPayload. run_reads.
    destruct (Z.leb_spec (i + MIN_RECEIPT_PAYLOAD_LENGTH) (len s)); [|lia].
    cbn [negb]. sizes.
    destruct (Z.leb_spec (i + 4) (len s)); [|lia]. fold tag.
    destruct (Z.eqb_spec tag RECEIPT_PAYLOAD_TYPE); [contradiction|].
    reflexivity.
Qed.

(** X6.  The transaction decoder on an essence type it does not know: when
    at least eight bytes remain, the transaction tag is read and the byte
    after it is not the essence type, the decoder fails, and the error
    carries the payload type just read (the transaction tag), not the
    essence type found; the essence type byte is not consumed. *)
Theorem unknown_essence_reports_payload_type (s : list byte) (i : Z)
  (b : byte) :
  bytes_at s i (le_bytes 4 TRANSACTION_PAYLOAD_TYPE ++ [b]) ->
  i + MIN_TRANSACTION_PAYLOAD_LENGTH <= len s ->
  Z_of_byte b <> TRANSACTION_ESSENCE_TYPE ->
  deserializeTransactionPayload s i
  = (Err (UnrecognizedEssenceType TRANSACTION_PAYLOAD_TYPE), i + 4).
Proof.
  intros H Hl Hb. apply bytes_at_app in H. destruct H as [Ht Hbyte].
  rewrite len_le_bytes in Hbyte. change (Z.of_nat 4) with 4 in Hbyte.
  unfold deserializeTransactionPayload.
  rewrite (bind_Ok _ _ _ _ _ _ (hasRemaining_eq _ _ _)).
  destruct (Z.leb_spec (i + MIN_TRANSACTION_PAYLOAD_LENGTH) (len s)); [|lia].
  cbn [negb].
  erewrite bind_Ok
    by (apply (readUInt_at 4); [exact Ht | unfold TRANSACTION_PAYLOAD_TYPE; lia]).
  cbv iota. rewrite Z.eqb_refl. cbn [negb].
  replace [b] with (le_bytes 1 (Z_of_byte b)) in Hbyte
    by (cbn [le_bytes]; now rewrite byte_of_Z_of_byte).
  erewrite bind_Ok
    by (apply (readUInt_at 1);
        [exact Hbyte | pose proof (Z_of_byte_range b); lia]).
  cbv iota.
  destruct (Z.eqb_spec (Z_of_byte b) TRANSACTION_ESSENCE_TYPE);
    [contradiction | reflexivity].
Qed.

Ltac read_by tac := erewrite bind_Ok by tac; cbv iota.

Ltac read_uint n H :=
  read_by ltac:(apply (readUInt_at n);
                [exact H
                |unfold TRANSACTION_PAYLOAD_TYPE, MILESTONE_PAYLOAD_TYPE,
                   INDEXATION_PAYLOAD_TYPE, RECEIPT_PAYLOAD_TYPE; lia]).

Ltac take H H1 := apply bytes_at_app in H; destruct H as [H1 H].

(** X7.  The indexation decoder puts no bound on the index: an indexation
    layout with an index of any length that fits the 2-byte prefix, the
    empty index included, is decoded to that index and data; when the
    [length] of the index (its count of UTF-16 code units) is below 1 or
    above 64 the value so decoded is one that [serializeIndexationPayload]
    refuses to encode. *)
Theorem decode_does_not_bound_index (index : string) (data : list byte)
  (s : list byte) (i : Z) :
  Z.of_nat (String.length index) < 65536 ->
  len data < 2 ^ 32 ->
  bytes_at s i (indexation_bytes INDEXATION_PAYLOAD_TYPE index (Some data)) ->
  deserializeIndexationPayload s i
  = (Ok (IndexationPayload index (Some data)),
     i + len (indexation_bytes INDEXATION_PAYLOAD_TYPE index (Some data)))
  /\ (utf16_length index < MIN_INDEXATION_KEY_LENGTH
      \/ MAX_INDEXATION_KEY_LENGTH < utf16_length index ->
      forall type ws,
        is_ok (fst (serializeIndexationPayload type index (Some data) ws))
        = false).
Proof.
  intros Hn Hd H. split.
  - pose proof (bytes_at_bounds _ _ _ H) as [Hi Hb].
    unfold indexation_bytes in *.
    rewrite !len_app, !len_le_bytes in Hb.
    pose proof (len_nonneg (list_byte_of_string index)).
    pose proof (len_nonneg data).
    take H Htag. take H Hstr. take H Hlen.
    unfold deserializeIndexationPayload.
    rewrite (bind_Ok _ _ _ _ _ _ (hasRemaining_eq _ _ _)).
    destruct (Z.leb_spec (i + MIN_INDEXATION_PAYLOAD_LENGTH) (len s));
      [|sizes; lia].
    cbn [negb].
    read_uint 4%nat Htag. rewrite Z.eqb_refl. cbn [negb].
    read_by ltac:(apply readString_at; [exact Hstr | lia]).
    assert (E : i + Z.of_nat 4 + 2 + Z.of_nat (String.length index)
                = i + len (le_bytes 4 INDEXATION_PAYLOAD_TYPE)
                  + len (le_bytes 2 (Z.of_nat (String.length index))
                         ++ list_byte_of_string index)).
    { rewrite len_app, !len_le_bytes. unfold len.
      rewrite length_list_byte_of_string. lia. }
    rewrite E.
    read_uint 4%nat Hlen.
    read_by ltac:(apply readFixedHex_at; exact H).
    unfold ReadStream.ret. f_equal. rewrite !len_app, !len_le_bytes. lia.
  - intros Hr type ws. unfold serializeIndexationPayload.
    destruct (Z.ltb_spec (utf16_length index)
                MIN_INDEXATION_KEY_LENGTH); [reflexivity|].
    destruct (Z.ltb_spec MAX_INDEXATION_KEY_LENGTH
                (utf16_length index)); [reflexivity|].
    lia.
Qed.

(** X8.  [serializePayload] never disturbs what was written before it and
    never leaves the cursor behind where it started, whether it succeeds
    or fails: from a well-formed writer the cursor ends at or after its
    start, inside the buffer, and the bytes before the start are unchanged,
    the back-patch of the length included. *)
Theorem serializePayload_keeps_prefix (object : option Payload)
  (ws : WriteStream) :
  wf_ws ws ->
  let ws' := snd (serializePayload object ws) in
  writeIndex ws <= writeIndex ws' <= len (storage ws')
  /\ firstn (Z.to_nat (writeIndex ws)) (storage ws')
     = firstn (Z.to_nat (writeIndex ws)) (storage ws)
  /\ (fst (serializePayload object ws) = Ok tt ->
      writeIndex ws + 4 <= writeIndex ws').
Proof.
  intros Hw ws'.
  pose proof (framing_envelope serializeVariant object
                (framing_envelope_body object) ws Hw) as F.
  fold (serializePayload object) in F. fold ws' in F.
  destruct F as (Hw' & Hi & E). unfold wf_ws in Hw'.
  split; [lia|]. split; [exact E|].
  intro Hok. unfold ws' in *. unfold serializePayload in *.
  rewrite serializePayloadBody_run in *.
  pose proof (framing_envelope_body object _ (wf_after_placeholder ws Hw)) as Fb.
  destruct (envelope_body serializeVariant object (after_placeholder ws))
    as [[u|e] ws2]; [|discriminate Hok].
  cbn [snd back_patch writeIndex] in *.
  destruct Fb as (_ & Hb & _). rewrite writeIndex_after_placeholder in Hb.
  exact Hb.
Qed.

(** X9.  [deserializePayload] only looks ahead: when it succeeds it has
    moved the read position forward by at least the four bytes of the length
    field; and its outcome (result and final position) does not depend on
    the bytes before the read position. *)
Theorem deserializePayload_looks_ahead :
  (forall s i o j,
      0 <= i -> deserializePayload s i = (Ok o, j) -> i + 4 <= j)
  /\ (forall pre1 pre2 rest,
        len pre1 = len pre2 ->
        deserializePayload (pre1 ++ rest) (len pre1)
        = deserializePayload (pre2 ++ rest) (len pre1)).
Proof.
  split.
  - intros s i o j Hi. unfold deserializePayload.
    cbn [deserializePayloadFuel]. rewrite deserializePayloadBody_cases.
    cbv zeta.
    repeat match goal with
      | |- (if ?c then _ else _) = _ -> _ => destruct c
      end; try discriminate.
    + intro H.
      assert (T : tame (ReadStream.bind
                          (ReadStream.readUInt32 "payload.type" false)
                          (dispatch (deserializePayloadFuel (List.length s))))).
      { apply tame_bind.
        - apply tame_readUInt. sizes. lia.
        - intro t. apply tame_dispatch. apply tame_fuel. }
      apply (proj2 T) in H; lia.
    + intro H. injection H as _ <-. lia.
  - intros pre1 pre2 rest Hl. unfold deserializePayload.
    assert (El : List.length (pre1 ++ rest) = List.length (pre2 ++ rest)).
    { rewrite !length_app. unfold len in Hl. lia. }
    rewrite El.
    apply (proj1 (tame_fuel (S (List.length (pre2 ++ rest))))).
    + apply len_nonneg.
    + unfold len. now rewrite El.
    + unfold len at 1. rewrite Nat2Z.id, skipn_exact.
      rewrite Hl. unfold len. now rewrite Nat2Z.id, skipn_exact.
Qed.

Lemma valid_milestone_fields_spec (index timestamp : Z)
  (p1 p2 proof : list byte) (keys sigs : list (list byte)) :
  valid_milestone_fields index timestamp p1 p2 proof keys sigs = true ->
  (0 <= index < 2 ^ 32 /\ 0 <= timestamp < 2 ^ 53)
  /\ (len p1 = MESSAGE_ID_LENGTH /\ len p2 = MESSAGE_ID_LENGTH
      /\ len proof = MERKLE_PROOF_LENGTH)
  /\ (len keys < 256
      /\ Forall (fun key => len key = Ed25519.PUBLIC_KEY_SIZE) keys)
  /\ (len sigs < 256
      /\ Forall (fun sig => len sig = Ed25519.SIGNATURE_SIZE) sigs).
Proof.
  unfold valid_milestone_fields. intro V. repeat rewrite andb_true_iff in V.
  destruct V as ((((((((Vi & Vt) & Vp1) & Vp2) & Vm) & Vk) & Vks) & Vs) & Vss).
  apply in_range_spec in Vi, Vt. apply Z.eqb_eq in Vp1, Vp2, Vm.
  apply Z.ltb_lt in Vk, Vs. apply forallb_len in Vks, Vss. tauto.
Qed.

Lemma milestone_bytes_split (index timestamp : Z) (p1 p2 proof : list byte)
  (keys : list (list byte)) (receipt : option Payload)
  (sigs : list (list byte)) :
  variant_bytes (MilestonePayload index timestamp p1 p2 proof keys receipt sigs)
  = milestone_head_bytes index timestamp p1 p2 proof keys
    ++ envelope_bytes receipt
    ++ le_bytes 1 (len sigs) ++ List.concat sigs.
Proof.
  cbn [variant_bytes]. unfold milestone_head_bytes, envelope_bytes, body_bytes.
  now rewrite <- !app_assoc.
Qed.

(** A milestone whose fields are valid and whose embedded payload is any
    valid payload is written as its layout: the encoder does not look at the
    kind of the embedded payload. *)
Lemma writes_milestone_fields (index timestamp : Z) (p1 p2 proof : list byte)
  (keys : list (list byte)) (receipt : option Payload)
  (sigs : list (list byte)) :
  valid_milestone_fields index timestamp p1 p2 proof keys sigs = true ->
  valid receipt = true ->
  writes (serializeVariant
            (MilestonePayload index timestamp p1 p2 proof keys receipt sigs))
    (variant_bytes
       (MilestonePayload index timestamp p1 p2 proof keys receipt sigs)).
Proof.
  intros V Vr. apply valid_milestone_fields_spec in V.
  destruct V as ((Vi & Vt) & (Vp1 & Vp2 & Vm) & (Vk & Vks) & (Vs & Vss)).
  cbn [serializeVariant variant_bytes payload_type].
  unfold serializeMilestonePayload.
  repeat (apply writes_bind;
          [first [ apply writes_writeUInt
                 | apply writes_writeFixedHex; assumption
                 | apply writes_writeFixedHexList; assumption ]|]).
  apply writes_bind.
  { apply writes_envelope. destruct receipt as [r|].
    - now apply writes_variant.
    - apply writes_ret. }
  apply writes_bind; [apply writes_writeUInt|].
  now apply writes_writeFixedHexList.
Qed.

Lemma reads_milestone_head (index timestamp : Z) (p1 p2 proof : list byte)
  (keys sigs : list (list byte)) (s : list byte) (i : Z) :
  valid_milestone_fields index timestamp p1 p2 proof keys sigs = true ->
  bytes_at s i (milestone_head_bytes index timestamp p1 p2 proof keys) ->
  i + MIN_MILESTONE_PAYLOAD_LENGTH <= len s ->
  milestone_head s i
  = (Ok (index, timestamp, p1, p2, proof, keys),
     i + len (milestone_head_bytes index timestamp p1 p2 proof keys)).
Proof.
  intros V H Hmin. apply valid_milestone_fields_spec in V.
  destruct V as ((Vi & Vt) & (Vp1 & Vp2 & Vm) & (Vk & Vks) & _).
  unfold milestone_head_bytes in *.
  take H Htag. take H Hidx. take H Hts. take H Hp1. take H Hp2. take H Hm.
  take H Hkc.
  unfold milestone_head.
  rewrite (bind_Ok _ _ _ _ _ _ (hasRemaining_eq _ _ _)).
  destruct (Z.leb_spec (i + MIN_MILESTONE_PAYLOAD_LENGTH) (len s)); [|lia].
  cbn [negb].
  read_uint 4%nat Htag. rewrite Z.eqb_refl. cbn [negb].
  read_uint 4%nat Hidx.
  read_uint 8%nat Hts.
  read_by ltac:(rewrite <- Vp1; apply readFixedHex_at; exact Hp1).
  read_by ltac:(rewrite <- Vp2; apply readFixedHex_at; exact Hp2).
  read_by ltac:(rewrite <- Vm; apply readFixedHex_at; exact Hm).
  read_by ltac:(apply (readUInt_at 1);
                [exact Hkc | pose proof (len_nonneg keys); lia]).
  unfold len at 1. rewrite Nat2Z.id.
  read_by ltac:(apply readFixedHexList_at; [exact Vks | exact H]).
  unfold ReadStream.ret. f_equal. rewrite !len_app, !len_le_bytes. lia.
Qed.

(** The milestone decoder on the layout of a milestone with valid fields
    and any valid embedded payload, up to the check of that payload. *)
Lemma reads_milestone_to_embedded (index timestamp : Z)
  (p1 p2 proof : list byte) (keys : list (list byte))
  (receipt : option Payload) (sigs : list (list byte))
  (s : list byte) (i : Z) :
  valid_milestone_fields index timestamp p1 p2 proof keys sigs = true ->
  valid receipt = true ->
  bytes_at s i
    (variant_bytes
       (MilestonePayload index timestamp p1 p2 proof keys receipt sigs)) ->
  i + MIN_MILESTONE_PAYLOAD_LENGTH <= len s ->
  deserializeMilestonePayload deserializePayload s i
  = milestone_tail (index, timestamp, p1, p2, proof, keys)
      (decoded_form receipt) s
      (i + len (milestone_head_bytes index timestamp p1 p2 proof keys)
       + len (envelope_bytes receipt)).
Proof.
  intros V Vr H Hmin. rewrite milestone_bytes_split in H.
  take H Hhead. take H Hemb.
  rewrite deserializeMilestonePayload_split.
  rewrite (bind_Ok _ _ _ _ _ _ (reads_milestone_head _ _ _ _ _ _ _ _ _ V Hhead Hmin)).
  now rewrite (bind_Ok _ _ _ _ _ _ (reads_payload _ _ _ Vr Hemb)).
Qed.


(** The envelope decoder on the envelope of a milestone hands the body to
    the milestone decoder, whatever the size of the body. *)
Lemma reads_milestone_envelope (index timestamp : Z)
  (p1 p2 proof : list byte) (keys : list (list byte))
  (receipt : option Payload) (sigs : list (list byte))
  (s : list byte) (i : Z) :
  let m := Some (MilestonePayload index timestamp p1 p2 proof keys receipt sigs) in
  bytes_at s i (envelope_bytes m) ->
  len (body_bytes m) < 2 ^ 32 ->
  deserializePayload s i
  = ReadStream.bind (deserializeMilestonePayload deserializePayload)
      (fun payload => ReadStream.ret (Some payload)) s (i + 4).
Proof.
  intros m H Hl. unfold envelope_bytes in H.
  pose proof (bytes_at_bounds _ _ _ H) as [Hi Hb].
  rewrite len_app, len_le_bytes in Hb. change (Z.of_nat 4) with 4 in Hb.
  assert (Hn : 4 <= len (body_bytes m)).
  { unfold m. cbn [body_bytes variant_bytes]. rewrite len_app, len_le_bytes.
    match goal with |- _ <= _ + len ?l => pose proof (len_nonneg l) end.
    change (Z.of_nat 4) with 4. lia. }
  rewrite deserializePayload_cases by (apply merkle_nonneg || assumption).
  apply bytes_at_app in H. destruct H as [H1 H2].
  pose proof (slice_bytes_at _ _ _ H1) as E.
  rewrite len_le_bytes in E, H2. change (Z.of_nat 4) with 4 in E, H2.
  rewrite E. rewrite le_value_small by (change (Z.of_nat 4) with 4; lia).
  destruct (Z.leb_spec (i + 4) (len s)); [|lia].
  cbv zeta. destruct (Z.leb_spec (i + 4 + len (body_bytes m)) (len s)); [|lia].
  destruct (Z.ltb_spec 0 (len (body_bytes m))); [|lia].
  unfold m in H2. cbn [body_bytes variant_bytes] in H2.
  apply bytes_at_app in H2. destruct H2 as [H2 _].
  read_uint 4%nat H2. reflexivity.
Qed.

(** X10.  The milestone encoder accepts a milestone whose body is shorter
    than the minimum its decoder asks for (one with no signature, or with
    no key), and the decoder's minimum counts every byte left in the
    buffer, not the bytes of the payload: the encoded milestone is refused
    as too short when it ends the buffer, and is read back in full, ending
    where its envelope ends, when enough other bytes follow it. *)
Theorem undersized_milestone (index timestamp : Z) (p1 p2 proof : list byte)
  (keys sigs : list (list byte)) (suf : list byte) :
  let m := Some (MilestonePayload index timestamp p1 p2 proof keys None sigs) in
  valid_milestone_fields index timestamp p1 p2 proof keys sigs = true ->
  len (body_bytes m) < MIN_MILESTONE_PAYLOAD_LENGTH ->
  len (body_bytes m) < 2 ^ 32 ->
  encodePayload m = Ok (envelope_bytes m)
  /\ deserializePayload (envelope_bytes m ++ suf) 0
     = if len (body_bytes m) + len suf <? MIN_MILESTONE_PAYLOAD_LENGTH
       then (Err (DataTooShort CMilestone (len (envelope_bytes m ++ suf))
                    MIN_MILESTONE_PAYLOAD_LENGTH), 4)
       else (Ok m, len (envelope_bytes m)).
Proof.
  intros m V Hshort Hl. split.
  { apply encodePayload_writes. unfold serializePayload, envelope_bytes.
    apply writes_envelope. now apply writes_milestone_fields. }
  assert (H : bytes_at (envelope_bytes m ++ suf) 0 (envelope_bytes m)).
  { exists [], suf. split; reflexivity. }
  rewrite (reads_milestone_envelope _ _ _ _ _ _ _ _ _ _ H Hl).
  assert (El : len (envelope_bytes m ++ suf) = 4 + len (body_bytes m) + len suf).
  { unfold envelope_bytes. rewrite !len_app, len_le_bytes.
    change (Z.of_nat 4) with 4. lia. }
  destruct (Z.ltb_spec (len (body_bytes m) + len suf) MIN_MILESTONE_PAYLOAD_LENGTH)
    as [Hs|Hs].
  - unfold ReadStream.bind at 1. rewrite deserializeMilestonePayload_split.
    unfold ReadStream.bind at 1. unfold milestone_head.
    unfold ReadStream.bind at 1. rewrite hasRemaining_eq.
    destruct (Z.leb_spec (0 + 4 + MIN_MILESTONE_PAYLOAD_LENGTH)
                (len (envelope_bytes m ++ suf))); [lia|].
    reflexivity.
  - assert (Hv : bytes_at (envelope_bytes m ++ suf) (0 + 4)
                   (variant_bytes (MilestonePayload index timestamp p1 p2 proof
                                     keys None sigs))).
    { unfold envelope_bytes in H. apply bytes_at_app in H.
      destruct H as [_ H]. now rewrite len_le_bytes in H. }
    unfold ReadStream.bind at 1.
    rewrite (reads_milestone_to_embedded _ _ _ _ _ _ None _ _ _ V eq_refl Hv)
      by lia.
    apply valid_milestone_fields_spec in V.
    destruct V as ((Vi & Vt) & _ & _ & (Vs & Vss)).
    rewrite milestone_bytes_split in Hv.
    take Hv Hhead. take Hv Hemb. take Hv Hsc.
    unfold milestone_tail, decoded_form.
    read_by ltac:(apply (readUInt_at 1);
                  [exact Hsc | pose proof (len_nonneg sigs); lia]).
    unfold len at 1. rewrite Nat2Z.id.
    read_by ltac:(apply readFixedHexList_at; [exact Vss | exact Hv]).
    unfold ReadStream.ret. rewrite Number_of_BigInt_safe by lia.
    unfold m at 1. f_equal.
    unfold m, envelope_bytes. cbn [body_bytes].
    rewrite milestone_bytes_split. unfold envelope_bytes. cbn [body_bytes].
    rewrite !len_app, !len_le_bytes. change (len (@nil byte)) with 0. lia.
Qed.

(** X11.  The milestone encoder writes any valid embedded payload, but the
    decoder accepts only a receipt there: a milestone that embeds a valid
    payload of another kind encodes without error, and decoding the bytes it
    was encoded to fails with the embedded-receipt error. *)
Theorem milestone_encodes_any_embedded (index timestamp : Z)
  (p1 p2 proof : list byte) (keys : list (list byte)) (p : Payload)
  (sigs : list (list byte)) :
  let m := Some (MilestonePayload index timestamp p1 p2 proof keys (Some p) sigs) in
  valid_milestone_fields index timestamp p1 p2 proof keys sigs = true ->
  valid_payload p = true ->
  payload_type p <> RECEIPT_PAYLOAD_TYPE ->
  MIN_MILESTONE_PAYLOAD_LENGTH <= len (body_bytes m) < 2 ^ 32 ->
  encodePayload m = Ok (envelope_bytes m)
  /\ decodePayload (envelope_bytes m) = Err EmbeddedNotReceipt.
Proof.
  intros m V Vp Hp [Hmin Hl]. split.
  { apply encodePayload_writes. unfold serializePayload, envelope_bytes.
    apply writes_envelope. now apply writes_milestone_fields. }
  unfold decodePayload.
  pose proof (bytes_at_whole (envelope_bytes m)) as H.
  rewrite (reads_milestone_envelope _ _ _ _ _ _ _ _ _ _ H Hl).
  assert (Hv : bytes_at (envelope_bytes m) (0 + 4)
                 (variant_bytes (MilestonePayload index timestamp p1 p2 proof
                                   keys (Some p) sigs))).
  { unfold envelope_bytes in H. apply bytes_at_app in H.
    destruct H as [_ H]. now rewrite len_le_bytes in H. }
  assert (El : len (envelope_bytes m) = 4 + len (body_bytes m)).
  { unfold envelope_bytes. rewrite !len_app, len_le_bytes.
    change (Z.of_nat 4) with 4. lia. }
  unfold ReadStream.bind at 1.
  rewrite (reads_milestone_to_embedded _ _ _ _ _ _ (Some p) _ _ _ V Vp Hv)
    by lia.
  unfold milestone_tail.
  assert (Ed : decoded_form (Some p)
               = Some match p with
                      | IndexationPayload index0 None =>
                          IndexationPayload index0 (Some [])
                      | _ => p
                      end).
  { destruct p as [| | ? [?|] | |]; reflexivity. }
  rewrite Ed.
  assert (Et : payload_type match p with
                            | IndexationPayload index0 None =>
                                IndexationPayload index0 (Some [])
                            | _ => p
                            end = payload_type p).
  { destruct p as [| | ? [?|] | |]; reflexivity. }
  rewrite Et.
  destruct (Z.eqb_spec (payload_type p) RECEIPT_PAYLOAD_TYPE); [contradiction|].
  reflexivity.
Qed.

End Further.

(** ** Type-tag mismatches *)

Section NoMismatch.

Context {X : Collaborators}.
Import ReadStream.

Lemma quiet_bind {A B : Type} (m : Reader A) (k : A -> Reader B)
  (s : list byte) (i : Z) :
  quiet m s i ->
  (forall a i', m s i = (Ok a, i') -> quiet (k a) s i') ->
  quiet (bind m k) s i.
Proof.
  intros Hm Hk c t j. unfold bind.
  destruct (m s i) as [[a|e] i'] eqn:E.
  - now apply Hk.
  - intro H. apply (Hm c t j). rewrite E. injection H as -> ->. reflexivity.
Qed.

Lemma quiet_ret {A : Type} (a : A) (s : list byte) (i : Z) :
  quiet (ret a) s i.
Proof. intros c t j. discriminate. Qed.

Lemma quiet_throw {A : Type} (e : Error) (s : list byte) (i : Z) :
  (forall c t, e <> TypeMismatch c t) -> quiet (@throw A e) s i.
Proof. intros He c t j H. injection H as H _. now apply (He c t). Qed.

Lemma quiet_hasRemaining (n : Z) (s : list byte) (i : Z) :
  quiet (hasRemaining n) s i.
Proof. intros c t j. discriminate. Qed.

Lemma quiet_length (s : list byte) (i : Z) : quiet length s i.
Proof. intros c t j. discriminate. Qed.

Lemma quiet_unused (s : list byte) (i : Z) : quiet unused s i.
Proof. intros c t j. discriminate. Qed.

Lemma quiet_readUInt (w : Z) (name : string) (moveIndex : bool)
  (s : list byte) (i : Z) :
  quiet (readUInt w name moveIndex) s i.
Proof.
  intros c t j. unfold readUInt. destruct (i + w <=? len s); discriminate.
Qed.

Lemma quiet_readFixedHex (name : string) (n : Z) (s : list byte) (i : Z) :
  quiet (readFixedHex name n) s i.
Proof.
  intros c t j. unfold readFixedHex. destruct (i + n <=? len s); discriminate.
Qed.

Ltac quiet_step :=
  match goal with
  | |- quiet (bind _ _) _ _ => apply quiet_bind; [|intros ? ? ?]
  | |- quiet (ret _) _ _ => apply quiet_ret
  | |- quiet (throw _) _ _ => apply quiet_throw; intros ? ?; discriminate
  | |- quiet (hasRemaining _) _ _ => apply quiet_hasRemaining
  | |- quiet length _ _ => apply quiet_length
  | |- quiet unused _ _ => apply quiet_unused
  | |- quiet (readUInt _ _ _) _ _ => apply quiet_readUInt
  | |- quiet (readByte _ _) _ _ => apply quiet_readUInt
  | |- quiet (readUInt16 _ _) _ _ => apply quiet_readUInt
  | |- quiet (readUInt32 _ _) _ _ => apply quiet_readUInt
  | |- quiet (readUInt64 _ _) _ _ => apply quiet_readUInt
  | |- quiet (readFixedHex _ _) _ _ => apply quiet_readFixedHex
  | |- quiet (if ?b then _ else _) _ _ => destruct b
  | H : no_mismatch ?m |- quiet ?m _ _ => apply H
  end.

Lemma quiet_readString (name : string) (s : list byte) (i : Z) :
  quiet (readString name) s i.
Proof. unfold readString. repeat quiet_step. Qed.

Lemma quiet_readFixedHexList (name : string) (size : Z) (count : nat)
  (s : list byte) (i : Z) :
  quiet (readFixedHexList name size count) s i.
Proof.
  revert i. induction count as [|count IH]; intro i;
    cbn [readFixedHexList]; repeat quiet_step. apply IH.
Qed.

(** The two steps every variant decoder starts with, where the four bytes
    under the cursor hold the tag of the variant: the precheck raises its
    own error and the re-check of the tag passes. *)
Ltac recheck Htag :=
  apply quiet_bind; [apply quiet_hasRemaining|];
  let enough := fresh "enough" in
  let i' := fresh "i" in
  let E := fresh "E" in
  intros enough i' E; rewrite hasRemaining_eq in E; injection E as <- <-;
  match goal with
  | |- quiet (if negb ?b then _ else _) _ _ => destruct b
  end; cbn [negb]; [|repeat quiet_step];
  apply quiet_bind; [apply quiet_readUInt|];
  let type := fresh "type" in
  intros type i' E; apply readUInt_inv in E; destruct E as (_ & -> & ->);
  unfold UINT32_SIZE; rewrite Htag, Z.eqb_refl; cbn [negb].

Section Variants.

Hypothesis essence_quiet : no_mismatch deserializeTransactionEssence.
Hypothesis unlockBlocks_quiet : no_mismatch deserializeUnlockBlocks.
Hypothesis funds_quiet : no_mismatch deserializeFunds.

Lemma quiet_transaction (s : list byte) (i : Z) :
  le_value (slice s i 4) = TRANSACTION_PAYLOAD_TYPE ->
  quiet deserializeTransactionPayload s i.
Proof.
  intro Htag. unfold deserializeTransactionPayload. recheck Htag.
  repeat quiet_step.
Qed.

Lemma quiet_indexation (s : list byte) (i : Z) :
  le_value (slice s i 4) = INDEXATION_PAYLOAD_TYPE ->
  quiet deserializeIndexationPayload s i.
Proof.
  intro Htag. unfold deserializeIndexationPayload. recheck Htag.
  repeat first [apply quiet_readString | quiet_step].
Qed.

Lemma quiet_receipt (s : list byte) (i : Z) :
  le_value (slice s i 4) = RECEIPT_PAYLOAD_TYPE ->
  quiet deserializeReceiptPayload s i.
Proof.
  intro Htag. unfold deserializeReceiptPayload. recheck Htag.
  repeat quiet_step.
Qed.

Lemma quiet_milestone (self : Reader (option Payload)) (s : list byte)
  (i : Z) :
  no_mismatch self ->
  le_value (slice s i 4) = MILESTONE_PAYLOAD_TYPE ->
  quiet (deserializeMilestonePayload self) s i.
Proof.
  intros Hself Htag. unfold deserializeMilestonePayload. recheck Htag.
  repeat first [apply quiet_readFixedHexList | quiet_step].
Qed.

Lemma quiet_body (self : Reader (option Payload)) :
  no_mismatch self -> no_mismatch (deserializePayloadBody self).
Proof.
  intros Hself s i. unfold deserializePayloadBody.
  apply quiet_bind; [apply quiet_hasRemaining|]. intros enough i1 _.
  destruct (negb enough); [repeat quiet_step|].
  apply quiet_bind; [apply quiet_readUInt|]. intros payloadLength i2 _.
  apply quiet_bind; [apply quiet_hasRemaining|]. intros enough2 i' _.
  destruct (negb enough2); [repeat quiet_step|].
  destruct (0 <? payloadLength); [|apply quiet_ret].
  apply quiet_bind; [apply quiet_readUInt|].
  intros payloadType j E. apply readUInt_inv in E.
  destruct E as (_ & -> & ->). unfold UINT32_SIZE.
  destruct (Z.eqb_spec (le_value (slice s i' 4)) TRANSACTION_PAYLOAD_TYPE).
  { quiet_step; [now apply quiet_transaction | quiet_step]. }
  destruct (Z.eqb_spec (le_value (slice s i' 4)) MILESTONE_PAYLOAD_TYPE).
  { quiet_step; [now apply quiet_milestone | quiet_step]. }
  destruct (Z.eqb_spec (le_value (slice s i' 4)) INDEXATION_PAYLOAD_TYPE).
  { quiet_step; [now apply quiet_indexation | quiet_step]. }
  destruct (Z.eqb_spec (le_value (slice s i' 4)) RECEIPT_PAYLOAD_TYPE).
  { quiet_step; [now apply quiet_receipt | quiet_step]. }
  quiet_step.
Qed.

Lemma quiet_fuel (fuel : nat) : no_mismatch (deserializePayloadFuel fuel).
Proof.
  induction fuel as [|fuel IH]; cbn [deserializePayloadFuel].
  - intros s i. quiet_step.
  - now apply quiet_body.
Qed.

End Variants.

(** The stand-in decoders of the reference instance raise no type
    mismatch. *)
Lemma blob_no_mismatch (tag : Z) : no_mismatch (Reference.blob_deserialize tag).
Proof.
  intros s i. unfold Reference.blob_deserialize. repeat quiet_step.
Qed.

(** X12.  Through the envelope the re-check of the type tag in the variant
    decoders never fails: [deserializePayload] picks the decoder by the four
    bytes the decoder then reads again.  If the essence, unlock-block and
    funds decoders never raise a type-mismatch error, no decode through the
    envelope, of any buffer at any position, ends in one, at any depth of
    embedding. *)
Theorem envelope_never_reports_mismatch :
  no_mismatch deserializeTransactionEssence ->
  no_mismatch deserializeUnlockBlocks ->
  no_mismatch deserializeFunds ->
  forall (s : list byte) (i : Z) (c : Codec) (t j : Z),
    deserializePayload s i <> (Err (TypeMismatch c t), j).
Proof.
  intros He Hu Hf s i. unfold deserializePayload.
  exact (quiet_fuel He Hu Hf (S (List.length s)) s i).
Qed.

End NoMismatch.

(** * The further properties on concrete values *)

Section FurtherConcrete.

#[local] Existing Instance Reference.collaborators.
#[local] Existing Instance Reference.layout.
#[local] Existing Instance Reference_laws.


Lemma decode_in_context_witness :
  deserializePayload ([x09] ++ envelope_bytes indexation_A ++ [x09; x09])
    (len [x09])
  = (Ok (decoded_form indexation_A),
     len [x09] + len (envelope_bytes indexation_A)).
Proof.
  assert (HV : valid indexation_A = true) by reflexivity.
  exact (decode_in_context (X := Reference.collaborators)
           indexation_A [x09] [x09; x09] HV).
Defined.

Lemma payloads_in_sequence_witness :
  let run := WriteStream.bind (serializePayload indexation_A)
               (fun _ => serializePayload smallest_milestone)
               WriteStream.empty in
  fst run = Ok tt
  /\ deserializePayload (storage (snd run)) (writeIndex WriteStream.empty)
     = (Ok (decoded_form indexation_A),
        writeIndex WriteStream.empty + len (envelope_bytes indexation_A))
  /\ deserializePayload (storage (snd run))
       (writeIndex WriteStream.empty + len (envelope_bytes indexation_A))
     = (Ok (decoded_form smallest_milestone), writeIndex (snd run)).
Proof.
  assert (H1 : valid indexation_A = true) by reflexivity.
  assert (H2 : valid smallest_milestone = true) by reflexivity.
  assert (Hw : wf_ws WriteStream.empty) by (unfold wf_ws; cbn; lia).
  exact (payloads_in_sequence (X := Reference.collaborators)
           indexation_A smallest_milestone WriteStream.empty H1 H2 Hw).
Defined.

Lemma encoding_injective_witness :
  encodePayload indexation_A
  = encodePayload (Some (IndexationPayload "A" (Some []))).
Proof.
  assert (H1 : valid indexation_A = true) by reflexivity.
  assert (H2 : valid (Some (IndexationPayload "A" (Some []))) = true)
    by reflexivity.
  apply (encoding_injective (X := Reference.collaborators)
           indexation_A (Some (IndexationPayload "A" (Some []))) H1 H2).
  reflexivity.
Defined.

Lemma variant_decoders_reject_witness :
  deserializeMilestonePayload deserializePayload scenario_body 0
  = (Err (DataTooShort CMilestone (len scenario_body)
            MIN_MILESTONE_PAYLOAD_LENGTH), 0)
  /\ deserializeTransactionPayload scenario_body 0
     = (Err (TypeMismatch CTransaction
               (le_value (ReadStream.slice scenario_body 0 4))), 0 + 4).
Proof.
  destruct (variant_decoders_reject (X := Reference.collaborators)
              deserializePayload scenario_body 0)
    as (_ & Hshort & _ & _ & Htag & _).
  split.
  - apply Hshort. reflexivity.
  - apply Htag; discriminate.
Defined.

Lemma unknown_essence_reports_payload_type_witness :
  deserializeTransactionPayload unknown_essence_bytes 0
  = (Err (UnrecognizedEssenceType TRANSACTION_PAYLOAD_TYPE), 0 + 4).
Proof.
  apply (unknown_essence_reports_payload_type (X := Reference.collaborators)
           unknown_essence_bytes 0 x01).
  - exists [], [x00; x00; x00]. split; reflexivity.
  - discriminate.
  - discriminate.
Defined.

Lemma decode_does_not_bound_index_witness :
  let index := index_of_length 65 in
  let s := indexation_bytes INDEXATION_PAYLOAD_TYPE index (Some []) in
  deserializeIndexationPayload s 0
  = (Ok (IndexationPayload index (Some [])), 0 + len s)
  /\ is_ok (fst (serializeIndexationPayload INDEXATION_PAYLOAD_TYPE index
                   (Some []) WriteStream.empty)) = false.
Proof.
  intros index s.
  assert (Hi : Z.of_nat (String.length index) < 65536) by reflexivity.
  assert (Hd : len (@nil byte) < 2 ^ 32) by reflexivity.
  destruct (decode_does_not_bound_index (X := Reference.collaborators)
              index [] s 0 Hi Hd (bytes_at_whole s)) as [Hdec Henc].
  split; [exact Hdec|].
  apply Henc. right. reflexivity.
Defined.

Lemma serializePayload_keeps_prefix_witness :
  let ws' := snd (serializePayload indexation_A used_writer) in
  writeIndex used_writer <= writeIndex ws' <= len (storage ws')
  /\ firstn (Z.to_nat (writeIndex used_writer)) (storage ws')
     = firstn (Z.to_nat (writeIndex used_writer)) (storage used_writer)
  /\ (fst (serializePayload indexation_A used_writer) = Ok tt ->
      writeIndex used_writer + 4 <= writeIndex ws').
Proof.
  assert (Hw : wf_ws used_writer) by (unfold wf_ws; cbn; lia).
  exact (serializePayload_keeps_prefix (X := Reference.collaborators)
           indexation_A used_writer Hw).
Defined.

Lemma deserializePayload_looks_ahead_witness :
  deserializePayload ([x01] ++ scenario_bytes) (len [x01])
  = deserializePayload ([x02] ++ scenario_bytes) (len [x01]).
Proof.
  apply (proj2 (deserializePayload_looks_ahead (X := Reference.collaborators))).
  reflexivity.
Defined.

Lemma undersized_milestone_witness :
  encodePayload unsigned_milestone = Ok (envelope_bytes unsigned_milestone)
  /\ deserializePayload (envelope_bytes unsigned_milestone ++ []) 0
     = (Err (DataTooShort CMilestone
               (len (envelope_bytes unsigned_milestone ++ []))
               MIN_MILESTONE_PAYLOAD_LENGTH), 4)
  /\ deserializePayload (envelope_bytes unsigned_milestone ++ repeat x00 60) 0
     = (Ok unsigned_milestone, len (envelope_bytes unsigned_milestone)).
Proof.
  assert (HV : valid_milestone_fields 7 1600000000 digest32 digest32 digest32
                 [digest32] [] = true) by reflexivity.
  assert (Hs : len (body_bytes unsigned_milestone)
               < MIN_MILESTONE_PAYLOAD_LENGTH) by reflexivity.
  assert (Hl : len (body_bytes unsigned_milestone) < 2 ^ 32) by reflexivity.
  pose proof (undersized_milestone (X := Reference.collaborators)
                7 1600000000 digest32 digest32 digest32 [digest32] []
                [] HV Hs Hl) as [Henc Hend].
  pose proof (undersized_milestone (X := Reference.collaborators)
                7 1600000000 digest32 digest32 digest32 [digest32] []
                (repeat x00 60) HV Hs Hl) as [_ Hmore].
  split; [exact Henc|]. split; [exact Hend | exact Hmore].
Defined.

Lemma milestone_encodes_any_embedded_witness :
  encodePayload milestone_with_indexation
  = Ok (envelope_bytes milestone_with_indexation)
  /\ decodePayload (envelope_bytes milestone_with_indexation)
     = Err EmbeddedNotReceipt.
Proof.
  assert (HV : valid_milestone_fields 7 1600000000 digest32 digest32 digest32
                 [digest32] [signature64] = true) by reflexivity.
  assert (Hp : valid_payload (IndexationPayload "A" None) = true)
    by reflexivity.
  assert (Hk : payload_type (IndexationPayload "A" None)
               <> RECEIPT_PAYLOAD_TYPE) by discriminate.
  assert (Hs : MIN_MILESTONE_PAYLOAD_LENGTH
               <= len (body_bytes milestone_with_indexation) < 2 ^ 32)
    by (split; [discriminate | reflexivity]).
  exact (milestone_encodes_any_embedded (X := Reference.collaborators)
           7 1600000000 digest32 digest32 digest32 [digest32]
           (IndexationPayload "A" None) [signature64] HV Hp Hk Hs).
Defined.

Lemma envelope_never_reports_mismatch_witness :
  (no_mismatch deserializeTransactionEssence
   /\ no_mismatch deserializeUnlockBlocks
   /\ no_mismatch deserializeFunds)
  /\ quiet deserializePayload
       (rewrite_tag RECEIPT_PAYLOAD_TYPE (envelope_bytes indexation_A)) 0.
Proof.
  split.
  - split; [exact (blob_no_mismatch 0)|].
    split; [exact (blob_no_mismatch 1) | exact (blob_no_mismatch 2)].
  - exact (envelope_never_reports_mismatch (X := Reference.collaborators)
             (blob_no_mismatch 0) (blob_no_mismatch 1) (blob_no_mismatch 2)
             (rewrite_tag RECEIPT_PAYLOAD_TYPE (envelope_bytes indexation_A))
             0).
Defined.

End FurtherConcrete.
